(** * graphviz: command construction, rendering facade, version query

    A shallow embedding of [graphviz/backend/__init__.py] and of the two
    default setters of [graphviz/__init__.py].

    Python [str] and [bytes] values are Rocq strings (a character is a code
    point below 256); [None]-able arguments are [option]s; a raised
    exception is the [Raise] case of [result]; the process-wide state (the
    class attributes of [Graphviz], the instance dictionaries and the calls
    made to the process runner) is threaded explicitly. *)

From Stdlib Require Import ZArith Ascii String List Lia Bool.
From stdpp Require Import base option list gmap strings pretty.

Local Open Scope string_scope.
Local Open Scope list_scope.

(** ** Python primitives *)

Module Py.

(** A member of a [subprocess.Popen] argument list: a [pathlib.Path] or a
    [str]. *)
Inductive arg :=
| PathArg (p : string)
| StrArg (s : string).

(** Exceptions raised by the embedded code, each with its message or
    payload.  [ExecutableNotFound] and [CalledProcessError] come from the
    process runner. *)
Inductive exception :=
| RequiredArgumentError (msg : string)
| ValueError (msg : string)
| RuntimeError (msg : string)
| ExecutableNotFound (args : list arg)
| CalledProcessError (returncode : Z) (cmd : list arg) (stderr : string).

Inductive result (A : Type) :=
| Ok (a : A)
| Raise (e : exception).
Arguments Ok {A} a.
Arguments Raise {A} e.

#[export] Instance result_ret : MRet result := fun A a => Ok a.

(** An exception ends the computation; nothing catches it. *)
#[export] Instance result_bind : MBind result := fun A B f r =>
  match r with
  | Ok a => f a
  | Raise e => Raise e
  end.

(** [str.lower()] on code points below 256: the ASCII capitals and the
    Latin-1 capitals [U+00C0]..[U+00DE] (but not the multiplication sign
    [U+00D7]) move up by 32. *)
Definition lower_char (c : ascii) : ascii :=
  let n := N_of_ascii c in
  if ((65 <=? n) && (n <=? 90)
      || (192 <=? n) && (n <=? 222) && negb (n =? 215))%N
  then ascii_of_N (n + 32) else c.

Fixpoint lower (s : string) : string :=
  match s with
  | EmptyString => EmptyString
  | String c s' => String (lower_char c) (lower s')
  end.

(** [sep.join(items)] *)
Fixpoint join (sep : string) (items : list string) : string :=
  match items with
  | [] => EmptyString
  | [x] => x
  | x :: rest => x +:+ sep +:+ join sep rest
  end.

(** [[f for f in items if f is not None]] *)
Definition not_none {A} (items : list (option A)) : list A :=
  omap id items.

Fixpoint contains_char (c : ascii) (s : string) : bool :=
  match s with
  | EmptyString => false
  | String d s' => Ascii.eqb c d || contains_char c s'
  end.

(** The double-quote character. *)
Definition dquote : ascii := ascii_of_N 34.

Definition hex_digit (n : N) : ascii :=
  if (n <? 10)%N then ascii_of_N (48 + n) else ascii_of_N (87 + n).

Definition hex_escape (n : N) : string :=
  String "\" (String "x" (String (hex_digit (n / 16)) (String (hex_digit (n mod 16)) EmptyString))).

(** One character of [repr(str)], for the quote character [q] chosen. *)
Definition repr_char (q : ascii) (c : ascii) : string :=
  let n := N_of_ascii c in
  if Ascii.eqb c q || Ascii.eqb c "\" then String "\" (String c EmptyString)
  else if (n =? 9)%N then "\t"
  else if (n =? 10)%N then "\n"
  else if (n =? 13)%N then "\r"
  else if ((n <? 32) || (n =? 127))%N then hex_escape n
  else if (n <? 127)%N then String c EmptyString
  else if ((n <=? 160) || (n =? 173))%N then hex_escape n
  else String c EmptyString.

Fixpoint repr_body (q : ascii) (s : string) : string :=
  match s with
  | EmptyString => EmptyString
  | String c s' => repr_char q c +:+ repr_body q s'
  end.

(** [repr(s)] of a [str]: double quotes only when the text has a single
    quote and no double quote. *)
Definition repr (s : string) : string :=
  let q : ascii :=
    if contains_char "'" s && negb (contains_char dquote s) then dquote
    else "'"%char in
  String q (repr_body q s +:+ String q EmptyString).

(** [repr(v)] of a value that may be [None]. *)
Definition repr_opt (v : option string) : string :=
  match v with
  | Some s => repr s
  | None => "None"
  end.

(** [repr] of a member of an argument list, on POSIX. *)
Definition repr_arg (a : arg) : string :=
  match a with
  | PathArg p => "PosixPath(" +:+ repr p +:+ ")"
  | StrArg s => repr s
  end.

(** [repr(args)] of an argument list. *)
Definition repr_args (args : list arg) : string :=
  "[" +:+ join ", " (map repr_arg args) +:+ "]".

(** [if cond: raise e] *)
Definition raise_if (cond : bool) (e : exception) : result unit :=
  if cond then Raise e else Ok tt.

(** ['0' <= c <= '9'], which is what [\d] matches below code point 256. *)
Definition is_digit (c : ascii) : bool :=
  let n := N_of_ascii c in ((48 <=? n) && (n <=? 57))%N.

(** The number that a run [d] of decimal digits denotes. *)
Definition int_digits (d : list ascii) : Z :=
  fold_left (fun acc c => 10 * acc + (Z.of_N (N_of_ascii c) - 48))%Z d 0%Z.

(** [sys.int_info.default_max_str_digits]: the most digits that [int]
    converts, unless the limit was changed. *)
Definition max_str_digits : Z := 4300.

(** [int(d)] for a run [d] of decimal digits: the number it denotes, or
    [ValueError] when the run, leading zeros included, has more digits than
    the limit. *)
Definition int (d : list ascii) : result Z :=
  if (max_str_digits <? Z.of_nat (length d))%Z then
    Raise (ValueError
             ("Exceeds the limit (" +:+ pretty max_str_digits
              +:+ " digits) for integer string conversion: value has "
              +:+ pretty (length d)
              +:+ " digits; use sys.set_int_max_str_digits() to increase the limit"))
  else Ok (int_digits d).

(** [tuple(f(x) for x in items)]: the items in order, up to the first that
    raises. *)
Fixpoint tuple_of {A B} (f : A -> result B) (items : list A) : result (list B) :=
  match items with
  | [] => Ok []
  | x :: rest => y ← f x; ys ← tuple_of f rest; mret (y :: ys)
  end.

End Py.

(** ** [os.path] on POSIX ([posixpath.split], [posixpath.join]) *)

Module PosixPath.
Import Py.

Definition sep : ascii := "/".

Definition is_sep (c : ascii) : bool := Ascii.eqb c sep.

Definition nonempty (s : string) : bool :=
  match s with
  | EmptyString => false
  | String _ _ => true
  end.

(** [(p[:i], p[i:])] for [i = p.rfind('/') + 1] *)
Fixpoint cut_after_last_sep (p : string) : string * string :=
  match p with
  | EmptyString => (EmptyString, EmptyString)
  | String c p' =>
      let (h, t) := cut_after_last_sep p' in
      if nonempty h then (String c h, t)
      else if is_sep c then (String c EmptyString, t)
      else (EmptyString, String c t)
  end.

(** [head == sep*len(head)] *)
Fixpoint all_sep (s : string) : bool :=
  match s with
  | EmptyString => true
  | String c s' => is_sep c && all_sep s'
  end.

(** [head.rstrip(sep)] *)
Fixpoint rstrip_sep (s : string) : string :=
  match s with
  | EmptyString => EmptyString
  | String c s' =>
      let r := rstrip_sep s' in
      if negb (nonempty r) && is_sep c then EmptyString else String c r
  end.

(** [os.path.split(p)] *)
Definition split (p : string) : string * string :=
  let (head, tail) := cut_after_last_sep p in
  let head := if nonempty head && negb (all_sep head) then rstrip_sep head
              else head in
  (head, tail).

Definition startswith_sep (s : string) : bool :=
  match s with
  | String c _ => is_sep c
  | EmptyString => false
  end.

Fixpoint endswith_sep (s : string) : bool :=
  match s with
  | EmptyString => false
  | String c EmptyString => is_sep c
  | String _ s' => endswith_sep s'
  end.

(** [os.path.join(a, b)] *)
Definition join (a b : string) : string :=
  if startswith_sep b then b
  else if negb (nonempty a) || endswith_sep a then a +:+ b
  else a +:+ String sep EmptyString +:+ b.

(** [os.path.isabs(p)] *)
Definition isabs (p : string) : bool := startswith_sep p.

End PosixPath.

(** ** The fragment of [re] used by the version query

    Literals, greedy [c+] and [c{n}] over a character class, sequencing,
    alternation (left alternative first), greedy [(?:r)?] and capturing
    groups, matched by backtracking. *)

Module Re.

Inductive regex :=
| Lit (cs : list ascii)
| Plus (p : ascii -> bool)
| Rep (n : nat) (p : ascii -> bool)
| Cat (r1 r2 : regex)
| Alt (r1 r2 : regex)
| Opt (r : regex)
| Group (i : nat) (r : regex).

(** Captured text by group number. *)
Abbreviation captures := (gmap nat (list ascii)).

Fixpoint strip_prefix (cs s : list ascii) : option (list ascii) :=
  match cs, s with
  | [], _ => Some s
  | c :: cs', d :: s' => if Ascii.eqb c d then strip_prefix cs' s' else None
  | _ :: _, [] => None
  end.

Fixpoint strip_n (n : nat) (p : ascii -> bool) (s : list ascii)
  : option (list ascii) :=
  match n with
  | O => Some s
  | S n' =>
      match s with
      | c :: s' => if p c then strip_n n' p s' else None
      | [] => None
      end
  end.

Section Matcher.
Context {R : Type}.

(** What is left to match: called on the rest of the text. *)
Definition cont := list ascii -> captures -> option R.

(** Greedy [c*]: the longest run first, then shorter ones. *)
Fixpoint many (p : ascii -> bool) (s : list ascii) (g : captures) (k : cont)
  : option R :=
  match s with
  | c :: s' =>
      if p c then
        match many p s' g k with
        | Some x => Some x
        | None => k s g
        end
      else k s g
  | [] => k s g
  end.

Fixpoint matches (r : regex) (s : list ascii) (g : captures) (k : cont)
  : option R :=
  match r with
  | Lit cs =>
      match strip_prefix cs s with
      | Some s' => k s' g
      | None => None
      end
  | Plus p =>
      match s with
      | c :: s' => if p c then many p s' g k else None
      | [] => None
      end
  | Rep n p =>
      match strip_n n p s with
      | Some s' => k s' g
      | None => None
      end
  | Cat r1 r2 => matches r1 s g (fun s' g' => matches r2 s' g' k)
  | Alt r1 r2 =>
      match matches r1 s g k with
      | Some x => Some x
      | None => matches r2 s g k
      end
  | Opt r1 =>
      match matches r1 s g k with
      | Some x => Some x
      | None => k s g
      end
  | Group i r1 =>
      matches r1 s g
        (fun s' g' => k s' (<[i := take (length s - length s') s]> g'))
  end.
End Matcher.

(** [re.match(r, s)]: the captures of a match starting at the first
    character. *)
Definition match_here (r : regex) (s : list ascii) : option captures :=
  matches r s ∅ (fun _ g => Some g).

(** [re.search(r, s)]: the first position where a match starts. *)
Fixpoint search (r : regex) (s : list ascii) : option captures :=
  match match_here r s with
  | Some g => Some g
  | None =>
      match s with
      | [] => None
      | _ :: s' => search r s'
      end
  end.

(** A literal, from a string. *)
Definition lit (s : string) : regex := Lit (list_ascii_of_string s).

(** Number of capturing groups. *)
Fixpoint ngroups (r : regex) : nat :=
  match r with
  | Lit _ | Plus _ | Rep _ _ => 0
  | Cat r1 r2 | Alt r1 r2 => ngroups r1 + ngroups r2
  | Opt r1 => ngroups r1
  | Group _ r1 => S (ngroups r1)
  end.

(** [ma.groups()]: groups 1 to n, [None] for a group that took no part. *)
Definition groups (r : regex) (g : captures) : list (option (list ascii)) :=
  (fun i => g !! i) <$> seq 1 (ngroups r).

(** The words a pattern matches, captures aside. *)
Inductive lang : regex -> list ascii -> Prop :=
| lang_Lit cs : lang (Lit cs) cs
| lang_Plus p w : w <> [] -> forallb p w = true -> lang (Plus p) w
| lang_Rep n p w : length w = n -> forallb p w = true -> lang (Rep n p) w
| lang_Cat r1 r2 w1 w2 : lang r1 w1 -> lang r2 w2 -> lang (Cat r1 r2) (w1 ++ w2)
| lang_Alt_l r1 r2 w : lang r1 w -> lang (Alt r1 r2) w
| lang_Alt_r r1 r2 w : lang r2 w -> lang (Alt r1 r2) w
| lang_Opt_some r w : lang r w -> lang (Opt r) w
| lang_Opt_none r : lang (Opt r) []
| lang_Group i r w : lang r w -> lang (Group i r) w.

(** A text has a matching substring. *)
Definition has_match (r : regex) (s : list ascii) : Prop :=
  exists pre w post, s = pre ++ w ++ post /\ lang r w.

End Re.

Declare Scope re_scope.
Delimit Scope re_scope with re.
Notation "r1 ⋅ r2" := (Re.Cat r1 r2)
  (at level 41, right associativity) : re_scope.

(** ** The state of the process and the interface of the process runner *)

Module State.
Import Py.

(** The [input_lines] keyword: the caller's iterator of text lines, or the
    generator [(line.encode(input_encoding) for line in input_lines)] that
    [pipe_lines] wraps around it; neither is consumed before the runner
    reads it. *)
Inductive lines :=
| TextLines (input_lines : list string)
| EncodedLines (input_encoding : string) (input_lines : list string).

(** [subprocess.PIPE] and [subprocess.STDOUT] *)
Inductive redirect := PIPE | STDOUT.

(** Keyword arguments of a [run_check] call; a keyword left out is [None]
    or [false]. *)
Record run_kwargs := {
  kw_input : option string;
  kw_input_lines : option lines;
  kw_encoding : option string;
  kw_capture_output : bool;
  kw_cwd : option string;
  kw_quiet : bool;
  kw_stdout : option redirect;
  kw_stderr : option redirect;
}.

Definition run_call : Type := list arg * run_kwargs.

(** [subprocess.CompletedProcess] *)
Record CompletedProcess := {
  args : list arg;
  returncode : Z;
  stdout : string;
  stderr : string;
}.

(** The state of the process: the calls made to the runner so far, the
    class attributes [Graphviz._engine] and [Graphviz._format], and the
    [__dict__] of every [Graphviz] instance, by object identity. *)
Record world := {
  calls : list run_call;
  cls_engine : string;
  cls_format : string;
  objects : gmap nat (gmap string string);
}.

(** State at import time: [_engine = 'dot'], [_format = 'pdf']. *)
Definition initial_world : world :=
  {| calls := []; cls_engine := "dot"; cls_format := "pdf"; objects := ∅ |}.

(** A computation that reads and writes the state and may raise. *)
Definition M (A : Type) : Type := world -> result A * world.

#[export] Instance M_ret : MRet M := fun A a w => (Ok a, w).

#[export] Instance M_bind : MBind M := fun A B f c w =>
  match c w with
  | (Ok a, w') => f a w'
  | (Raise e, w') => (Raise e, w')
  end.

Definition raise {A} (e : exception) : M A := fun w => (Raise e, w).

(** A computation that does not touch the state. *)
Definition lift {A} (r : result A) : M A := fun w => (r, w).

Definition log_call (c : run_call) (w : world) : world :=
  {| calls := calls w ++ [c]; cls_engine := cls_engine w;
     cls_format := cls_format w; objects := objects w |}.

End State.

(** ** graphviz/backend/running.py *)

Module Running.
Import Py State.

(** What the operating system answers to an invocation. *)
Inductive outcome :=
| NotFound
| Exited (status : Z) (out err : string).

Section Environment.

(** The environment: its answer to an invocation, given the invocations
    before it. *)
Variable os : list run_call -> run_call -> outcome.

(** Modelled from the spec: [run_check] of [graphviz/backend/running.py],
    which is not among the sources.  One subprocess per call; a program
    that cannot be located raises [ExecutableNotFound]; a non-zero exit
    status raises [CalledProcessError] with the command, the status and
    the captured standard error; otherwise the completed process is
    returned. *)
Definition run_check (cmd : list arg) (kw : run_kwargs)
  : M CompletedProcess := fun w =>
  let w' := log_call (cmd, kw) w in
  match os (calls w) (cmd, kw) with
  | NotFound => (Raise (ExecutableNotFound cmd), w')
  | Exited status out err =>
      if (status =? 0)%Z
      then (Ok {| args := cmd; returncode := status;
                  stdout := out; stderr := err |}, w')
      else (Raise (CalledProcessError status cmd err), w')
  end.

End Environment.

End Running.

(** ** graphviz/backend/__init__.py *)

Module Backend.
Import Py State.

(** [DOT_BINARY = pathlib.Path('dot')] *)
Definition DOT_BINARY : arg := PathArg "dot".

Definition ENGINES : gset string :=
  {[ "dot"; "neato"; "twopi"; "circo"; "fdp"; "sfdp"; "patchwork"; "osage" ]}.

Definition FORMATS : gset string :=
  {[ "bmp";
     "canon"; "dot"; "gv"; "xdot"; "xdot1.2"; "xdot1.4";
     "cgimage";
     "cmap";
     "eps";
     "exr";
     "fig";
     "gd"; "gd2";
     "gif";
     "gtk";
     "ico";
     "imap"; "cmapx";
     "imap_np"; "cmapx_np";
     "ismap";
     "jp2";
     "jpg"; "jpeg"; "jpe";
     "json"; "json0"; "dot_json"; "xdot_json";
     "pct"; "pict";
     "pdf";
     "pic";
     "plain"; "plain-ext";
     "png";
     "pov";
     "ps";
     "ps2";
     "psd";
     "sgi";
     "svg"; "svgz";
     "tga";
     "tif"; "tiff";
     "tk";
     "vml"; "vmlz";
     "vrml";
     "wbmp";
     "webp";
     "xlib";
     "x11" ]}.

Definition RENDERERS : gset string :=
  {[ "cairo"; "dot"; "fig"; "gd"; "gdiplus"; "map"; "pic"; "pov"; "ps";
     "svg"; "tk"; "vml"; "vrml"; "xdot" ]}.

Definition FORMATTERS : gset string :=
  {[ "cairo"; "core"; "gd"; "gdiplus"; "gdwbmp"; "xlib" ]}.

(** [x in S] *)
Definition is_in (x : string) (S : gset string) : bool := bool_decide (x ∈ S).

(** [v is not None and v not in S] *)
Definition given_not_in (v : option string) (S : gset string) : bool :=
  match v with
  | Some x => negb (is_in x S)
  | None => false
  end.

Definition is_None {A} (v : option A) : bool :=
  match v with
  | None => true
  | Some _ => false
  end.


(** [command(engine, format_, *, renderer=None, formatter=None)]: the
    [subprocess.Popen] argument list for rendering. *)
Definition command (engine format_ : string)
    (renderer formatter : option string) : result (list arg) :=
  raise_if (negb (is_None formatter) && is_None renderer)
    (RequiredArgumentError "formatter given without renderer") ;;
  raise_if (negb (is_in engine ENGINES))
    (ValueError ("unknown engine: " +:+ repr engine)) ;;
  raise_if (negb (is_in format_ FORMATS))
    (ValueError ("unknown format: " +:+ repr format_)) ;;
  raise_if (given_not_in renderer RENDERERS)
    (ValueError ("unknown renderer: " +:+ repr_opt renderer)) ;;
  raise_if (given_not_in formatter FORMATTERS)
    (ValueError ("unknown formatter: " +:+ repr_opt formatter)) ;;
  let output_format := not_none [Some format_; renderer; formatter] in
  let output_format_flag := join ":" output_format in
  Ok [DOT_BINARY; StrArg ("-K" +:+ engine); StrArg ("-T" +:+ output_format_flag)].

(** *** The rendering operations and the version query *)

Section Facade.

(** [run_check], imported from [graphviz/backend/running.py]. *)
Variable run_check : list arg -> run_kwargs -> M CompletedProcess.

(** [render(engine, format, filepath, renderer=None, formatter=None,
    quiet=False)] *)
Definition render (engine format filepath : string)
    (renderer formatter : option string) (quiet : bool) : M string :=
  let '(dirname, filename) := PosixPath.split filepath in
  cmd ← lift (command engine format renderer formatter);
  let cmd := cmd ++ [StrArg "-O"; StrArg filename] in
  let suffix := join "." (not_none [formatter; renderer; Some format]) in
  let rendered := filename +:+ "." +:+ suffix in
  let '(cwd, rendered) :=
    if PosixPath.nonempty dirname
    then (Some dirname, PosixPath.join dirname rendered)
    else (None, rendered) in
  run_check cmd {| kw_input := None; kw_input_lines := None;
                   kw_encoding := None; kw_capture_output := true;
                   kw_cwd := cwd; kw_quiet := quiet;
                   kw_stdout := None; kw_stderr := None |};;
  mret rendered.





(** The pattern of the version banner:
    [graphviz version (\d+)\.(\d+)(?:\.(\d+)(?:~dev\.\d{8}\.\d{4}|\.(\d+))?)? ]
    with a space after [version] and a space at the end. *)
Definition version_pattern : Re.regex :=
  (Re.lit "graphviz version"
   ⋅ Re.lit " "
   ⋅ Re.Group 1 (Re.Plus is_digit) ⋅ Re.lit "." ⋅ Re.Group 2 (Re.Plus is_digit)
   ⋅ Re.Opt (Re.lit "." ⋅ Re.Group 3 (Re.Plus is_digit)
             ⋅ Re.Opt (Re.Alt
                         (Re.lit "~dev." ⋅ Re.Rep 8 is_digit
                          ⋅ Re.lit "." ⋅ Re.Rep 4 is_digit)
                         (Re.lit "." ⋅ Re.Group 4 (Re.Plus is_digit))))
   ⋅ Re.lit " ")%re.

(** [version()]: the version number tuple from the output of [dot -V];
    the debug log line leaves no trace in the state. *)
Definition version : M (list Z) :=
  let cmd := [DOT_BINARY; StrArg "-V"] in
  proc ← run_check cmd {| kw_input := None; kw_input_lines := None;
                          kw_encoding := Some "ascii";
                          kw_capture_output := false;
                          kw_cwd := None; kw_quiet := false;
                          kw_stdout := Some PIPE;
                          kw_stderr := Some STDOUT |};
  match Re.search version_pattern (list_ascii_of_string (stdout proc)) with
  | None =>
      raise (RuntimeError ("cannot parse " +:+ repr_args cmd
                           +:+ " output: " +:+ repr (stdout proc)))
  | Some ma =>
      lift (tuple_of int (not_none (Re.groups version_pattern ma)))
  end.

End Facade.

(** *** [class Graphviz]: default engine and format, and the validated
    properties of an instance *)

Module Graphviz.

(** Class attributes that the code never rebinds. *)
Definition _renderer : option string := None.
Definition _formatter : option string := None.

(** [self.__dict__] *)
Definition dict_of (self : nat) (w : world) : gmap string string :=
  default ∅ (objects w !! self).

Definition set_dict (self : nat) (d : gmap string string) (w : world)
  : world :=
  {| calls := calls w; cls_engine := cls_engine w;
     cls_format := cls_format w; objects := <[self := d]> (objects w) |}.

(** [self.<name> = value] for a plain attribute *)
Definition setattr (self : nat) (name value : string) : M unit := fun w =>
  (Ok tt, set_dict self (<[name := value]> (dict_of self w)) w).

(** [self.__dict__.pop(name, None)] *)
Definition dict_pop (self : nat) (name : string) : M unit := fun w =>
  (Ok tt, set_dict self (delete name (dict_of self w)) w).

(** The [engine] property: [self._engine], found on the instance or else
    on the class. *)
Definition engine (self : nat) (w : world) : string :=
  default (cls_engine w) (dict_of self w !! "_engine").

Definition engine_setter (self : nat) (engine : string) : M unit :=
  let engine := lower engine in
  lift (raise_if (negb (is_in engine ENGINES))
          (ValueError ("unknown engine: " +:+ repr engine)));;
  setattr self "_engine" engine.

(** The [format] property. *)
Definition format (self : nat) (w : world) : string :=
  default (cls_format w) (dict_of self w !! "_format").

Definition format_setter (self : nat) (format : string) : M unit :=
  let format := lower format in
  lift (raise_if (negb (is_in format FORMATS))
          (ValueError ("unknown format: " +:+ repr format)));;
  setattr self "_format" format.

(** The [renderer] property. *)
Definition renderer (self : nat) (w : world) : option string :=
  match dict_of self w !! "_renderer" with
  | Some v => Some v
  | None => _renderer
  end.

Definition renderer_setter (self : nat) (renderer : option string)
  : M unit :=
  match renderer with
  | None => dict_pop self "_renderer"
  | Some renderer =>
      let renderer := lower renderer in
      lift (raise_if (negb (is_in renderer RENDERERS))
              (ValueError ("unknown renderer: " +:+ repr renderer)));;
      setattr self "_renderer" renderer
  end.

(** The [formatter] property. *)
Definition formatter (self : nat) (w : world) : option string :=
  match dict_of self w !! "_formatter" with
  | Some v => Some v
  | None => _formatter
  end.

Definition formatter_setter (self : nat) (formatter : option string)
  : M unit :=
  match formatter with
  | None => dict_pop self "_formatter"
  | Some formatter =>
      let formatter := lower formatter in
      lift (raise_if (negb (is_in formatter FORMATTERS))
              (ValueError ("unknown formatter: " +:+ repr formatter)));;
      setattr self "_formatter" formatter
  end.

(** [__init__(self, format=None, engine=None, *, renderer=None,
    formatter=None)]; the initialiser of the base class sets none of the
    four attributes. *)
Definition __init__ (self : nat) (format engine : option string)
    (renderer formatter : option string) : M unit :=
  match format with
  | Some format => format_setter self format
  | None => mret tt
  end;;
  match engine with
  | Some engine => engine_setter self engine
  | None => mret tt
  end;;
  renderer_setter self renderer;;
  formatter_setter self formatter.

(** [Graphviz(format, engine, renderer=..., formatter=...)]: a new object
    with an empty [__dict__], initialised by [__init__]. *)
Definition new (format engine : option string)
    (renderer formatter : option string) : M nat := fun w =>
  let self := fresh (dom (objects w)) in
  (__init__ self format engine renderer formatter;; mret self)
    (set_dict self ∅ w).

(** [_get_backend_kwargs(self, *, format=None, renderer=None,
    formatter=None)]: the format, renderer and formatter of a request. *)
Definition _get_backend_kwargs (self : nat)
    (format_ : option string) (renderer_ formatter_ : option string)
    (w : world) : string * option string * option string :=
  (default (format self w) format_,
   match renderer_ with Some r => Some r | None => renderer self w end,
   match formatter_ with Some f => Some f | None => formatter self w end).

(** [attr_kw] of [_copy_kwargs]: the instance attributes and the keyword
    arguments of the constructor that they become. *)
Definition attr_kw : list (string * string) :=
  [("_engine", "engine"); ("_format", "format");
   ("_renderer", "renderer"); ("_formatter", "formatter")].

(** The loop of [_copy_kwargs] over [attr_kw], with [ns] the instance
    [__dict__]; [None] is a failed [assert kw not in kwargs]. *)
Fixpoint copy_attrs (ns : gmap string string) (pairs : list (string * string))
    (kwargs : gmap string string) : option (gmap string string) :=
  match pairs with
  | [] => Some kwargs
  | (attr, kw) :: rest =>
      if bool_decide (kw ∈ dom kwargs) then None
      else
        copy_attrs ns rest
          match ns !! attr with
          | Some v => <[kw := v]> kwargs
          | None => kwargs
          end
  end.

(** [_copy_kwargs(self, **kwargs)]: the keyword arguments to create a copy
    of the instance, handed on to [_copy_kwargs] of the base class. *)
Definition _copy_kwargs {A} (super_copy_kwargs : gmap string string -> A)
    (self : nat) (kwargs : gmap string string) (w : world) : option A :=
  super_copy_kwargs <$> copy_attrs (dict_of self w) attr_kw kwargs.

End Graphviz.

End Backend.

(** ** graphviz/__init__.py: the default setters *)

Module Toplevel.
Import Py State Backend.

(** [Graphviz._engine] and [Graphviz._engine = engine] *)
Definition get_cls_engine : M string := fun w => (Ok (cls_engine w), w).

Definition put_cls_engine (engine : string) : M unit := fun w =>
  (Ok tt, {| calls := calls w; cls_engine := engine;
             cls_format := cls_format w; objects := objects w |}).

(** [Graphviz._format] and [Graphviz._format = format] *)
Definition get_cls_format : M string := fun w => (Ok (cls_format w), w).

Definition put_cls_format (format : string) : M unit := fun w =>
  (Ok tt, {| calls := calls w; cls_engine := cls_engine w;
             cls_format := format; objects := objects w |}).

(** [set_default_engine(engine)] *)
Definition set_default_engine (engine : string) : M string :=
  lift (raise_if (negb (is_in engine ENGINES))
          (ValueError ("unknown engine: " +:+ repr engine)));;
  old_default_engine ← get_cls_engine;
  put_cls_engine engine;;
  mret old_default_engine.

(** [set_default_format(format)] *)
Definition set_default_format (format : string) : M string :=
  lift (raise_if (negb (is_in format FORMATS))
          (ValueError ("unknown format: " +:+ repr format)));;
  old_default_format ← get_cls_format;
  put_cls_format format;;
  mret old_default_format.

End Toplevel.

(** ** Notions used to state the properties *)

Module Props.
Import Py State Backend Toplevel.

(** The computation returns rather than raises. *)
Definition succeeds {A} (r : result A) : Prop := exists a, r = Ok a.

(** [s] is its own lowercase form. *)
Definition lowercase (s : string) : Prop := lower s = s.

(** An optional value is absent or belongs to the set. *)
Definition absent_or_in (v : option string) (S : gset string) : Prop :=
  forall x, v = Some x -> x ∈ S.

(** The text has a path separator in it. *)
Fixpoint has_sep (s : string) : bool :=
  match s with
  | EmptyString => false
  | String c s' => PosixPath.is_sep c || has_sep s'
  end.

(** The capability set that the values of an instance attribute come
    from. *)
Definition allowed (name : string) : option (gset string) :=
  if decide (name = "_engine") then Some ENGINES
  else if decide (name = "_format") then Some FORMATS
  else if decide (name = "_renderer") then Some RENDERERS
  else if decide (name = "_formatter") then Some FORMATTERS
  else None.

(** Every attribute stored on an instance is a member of its set. *)
Definition good_dict (d : gmap string string) : Prop :=
  forall name v S, d !! name = Some v -> allowed name = Some S -> v ∈ S.

(** The defaults and all stored attributes are members of their sets. *)
Definition good (w : world) : Prop :=
  cls_engine w ∈ ENGINES /\ cls_format w ∈ FORMATS
  /\ forall self d, objects w !! self = Some d -> good_dict d.

(** The invariant of a [Graphviz] object, as its properties show it. *)
Definition well_configured (self : nat) (w : world) : Prop :=
  (Graphviz.engine self w ∈ ENGINES /\ lowercase (Graphviz.engine self w))
  /\ (Graphviz.format self w ∈ FORMATS /\ lowercase (Graphviz.format self w))
  /\ (forall r, Graphviz.renderer self w = Some r ->
               r ∈ RENDERERS /\ lowercase r)
  /\ (forall f, Graphviz.formatter self w = Some f ->
               f ∈ FORMATTERS /\ lowercase f).

(** One step of a program that uses the package: it creates an object,
    assigns to a property, sets a default or runs a subprocess; a step that
    raises leaves whatever state the call left. *)
Inductive step : world -> world -> Prop :=
| step_new format engine renderer formatter w :
    step w (snd (Graphviz.new format engine renderer formatter w))
| step_engine self v w : step w (snd (Graphviz.engine_setter self v w))
| step_format self v w : step w (snd (Graphviz.format_setter self v w))
| step_renderer self v w : step w (snd (Graphviz.renderer_setter self v w))
| step_formatter self v w : step w (snd (Graphviz.formatter_setter self v w))
| step_default_engine v w : step w (snd (set_default_engine v w))
| step_default_format v w : step w (snd (set_default_format v w))
| step_run c w : step w (log_call c w).

(** The states a program can be in, from the state at import time. *)
Definition reachable (w : world) : Prop := rtc step initial_world w.

(** A non-empty run of decimal digits: what a group of the version pattern
    captures. *)
Definition digit_run (d : list ascii) : Prop :=
  d <> [] /\ forallb is_digit d = true.

Definition digit_captures (g : Re.captures) : Prop :=
  forall i d, g !! i = Some d -> digit_run d.

(** Every group of the pattern encloses something that matches digit runs
    only. *)
Fixpoint groups_of_digits (r : Re.regex) : Prop :=
  match r with
  | Re.Group _ r1 => (forall w, Re.lang r1 w -> digit_run w) /\ groups_of_digits r1
  | Re.Cat r1 r2 | Re.Alt r1 r2 => groups_of_digits r1 /\ groups_of_digits r2
  | Re.Opt r1 => groups_of_digits r1
  | Re.Lit _ | Re.Plus _ | Re.Rep _ _ => True
  end.

(** Groups that take part in every match of the pattern. *)
Fixpoint sure_groups (r : Re.regex) : list nat :=
  match r with
  | Re.Group i r1 => i :: sure_groups r1
  | Re.Cat r1 r2 => sure_groups r1 ++ sure_groups r2
  | Re.Lit _ | Re.Plus _ | Re.Rep _ _ | Re.Alt _ _ | Re.Opt _ => []
  end.

(** The keyword arguments of the call that [version] makes. *)
Definition version_kwargs : run_kwargs :=
  {| kw_input := None; kw_input_lines := None;
     kw_encoding := Some "ascii"; kw_capture_output := false;
     kw_cwd := None; kw_quiet := false;
     kw_stdout := Some PIPE; kw_stderr := Some STDOUT |}.

(** What [version] makes of the text that the process printed. *)
Definition banner_result (out : string) : result (list Z) :=
  match Re.search version_pattern (list_ascii_of_string out) with
  | None =>
      Raise (RuntimeError ("cannot parse " +:+ repr_args [DOT_BINARY; StrArg "-V"]
                           +:+ " output: " +:+ repr out))
  | Some ma => tuple_of int (not_none (Re.groups version_pattern ma))
  end.



(** Two states show the same four properties of an object. *)
Definition same_properties (o : nat) (w w1 : world) : Prop :=
  Graphviz.engine o w1 = Graphviz.engine o w
  /\ Graphviz.format o w1 = Graphviz.format o w
  /\ Graphviz.renderer o w1 = Graphviz.renderer o w
  /\ Graphviz.formatter o w1 = Graphviz.formatter o w.

(** Two states have the same defaults and the same record of calls. *)
Definition same_defaults (w w1 : world) : Prop :=
  cls_engine w1 = cls_engine w /\ cls_format w1 = cls_format w
  /\ calls w1 = calls w.

(** The instance attributes after [__init__]: the constructor's arguments
    in lowercase, an absent renderer or formatter leaving no attribute. *)
Definition init_dict (format engine renderer formatter : option string)
    (d : gmap string string) : gmap string string :=
  let d := match format with Some x => <["_format" := lower x]> d | None => d end in
  let d := match engine with Some x => <["_engine" := lower x]> d | None => d end in
  let d := match renderer with
           | Some x => <["_renderer" := lower x]> d
           | None => delete "_renderer" d
           end in
  match formatter with
  | Some x => <["_formatter" := lower x]> d
  | None => delete "_formatter" d
  end.

(** An optional value is absent or its lowercase form belongs to the
    set. *)
Definition absent_or_lower_in (v : option string) (S : gset string) : Prop :=
  forall x, v = Some x -> lower x ∈ S.

(** The text is empty or starts with a character outside the class: a
    greedy run stops there. *)
Definition stops (p : ascii -> bool) (s : list ascii) : Prop :=
  match s with
  | [] => True
  | c :: _ => p c = false
  end.

(** What may stand between the minor number and the final space of a
    version banner: nothing, [.PATCH], [.PATCH.SUBPATCH] or
    [.PATCH~dev.YYYYMMDD.HHMM]. *)
Inductive version_tail : list ascii -> Prop :=
| tail_none : version_tail []
| tail_patch p : digit_run p -> version_tail ("."%char :: p)
| tail_sub p s :
    digit_run p -> digit_run s -> version_tail ("."%char :: p ++ "."%char :: s)
| tail_dev p d t :
    digit_run p ->
    length d = 8 -> forallb is_digit d = true ->
    length t = 4 -> forallb is_digit t = true ->
    version_tail ("."%char :: p ++ list_ascii_of_string "~dev." ++ d
                  ++ "."%char :: t).

(** A version banner: [graphviz version MAJOR.MINOR], a tail, a space. *)
Definition banner_word (w : list ascii) : Prop :=
  exists major minor tl,
    digit_run major /\ digit_run minor /\ version_tail tl
    /\ w = list_ascii_of_string "graphviz version " ++ major
           ++ "."%char :: minor ++ tl ++ [" "%char].

(** A run of digits that [int] converts: within the limit on the number
    of digits. *)
Definition within_limit (d : list ascii) : Prop :=
  (Z.of_nat (length d) <= max_str_digits)%Z.

(** The first of the runs that is over the limit, if there is one. *)
Fixpoint first_over_limit (ds : list (list ascii)) : option (list ascii) :=
  match ds with
  | [] => None
  | d :: rest =>
      if (max_str_digits <? Z.of_nat (length d))%Z then Some d
      else first_over_limit rest
  end.

(** The message of the [ValueError] that [int] raises for a run over the
    limit. *)
Definition limit_message (d : list ascii) : string :=
  "Exceeds the limit (4300 digits) for integer string conversion: value has "
  +:+ pretty (length d)
  +:+ " digits; use sys.set_int_max_str_digits() to increase the limit".

(** Every captured text is at most [n] characters long. *)
Definition captures_within (n : nat) (g : Re.captures) : Prop :=
  forall i d, g !! i = Some d -> length d <= n.


(** An environment in which every invocation exits with status 0 and
    prints [out]. *)
Definition os_prints (out : string)
  : list run_call -> run_call -> Running.outcome :=
  fun _ _ => Running.Exited 0 out EmptyString.


End Props.

(** * Properties *)

Import Py State Backend Toplevel Props.

(** ** Capability sets *)

Lemma is_in_true x (S : gset string) : x ∈ S -> is_in x S = true.
Proof. intros H. unfold is_in. by apply bool_decide_eq_true_2. Qed.

Lemma is_in_false x (S : gset string) : x ∉ S -> is_in x S = false.
Proof. intros H. unfold is_in. by apply bool_decide_eq_false_2. Qed.

Lemma is_in_spec x (S : gset string) : is_in x S = true <-> x ∈ S.
Proof. unfold is_in. apply bool_decide_eq_true. Qed.

Lemma ENGINES_lowercase x : x ∈ ENGINES -> lowercase x.
Proof.
  unfold ENGINES, lowercase. set_unfold.
  intros H. repeat (destruct H as [H|H]); subst; reflexivity.
Qed.

Lemma FORMATS_lowercase x : x ∈ FORMATS -> lowercase x.
Proof.
  unfold FORMATS, lowercase. set_unfold.
  intros H. repeat (destruct H as [H|H]); subst; reflexivity.
Qed.

Lemma RENDERERS_lowercase x : x ∈ RENDERERS -> lowercase x.
Proof.
  unfold RENDERERS, lowercase. set_unfold.
  intros H. repeat (destruct H as [H|H]); subst; reflexivity.
Qed.

Lemma FORMATTERS_lowercase x : x ∈ FORMATTERS -> lowercase x.
Proof.
  unfold FORMATTERS, lowercase. set_unfold.
  intros H. repeat (destruct H as [H|H]); subst; reflexivity.
Qed.



(** ** [command] *)

Lemma raise_if_bind_Ok {A} b e (k : result A) x :
  (raise_if b e;; k) = Ok x -> b = false /\ k = Ok x.
Proof. destruct b; [intros H; discriminate H | intros H; split; [reflexivity | exact H]]. Qed.

Lemma negb_is_in_false x (S : gset string) : negb (is_in x S) = false -> x ∈ S.
Proof. intros H. apply is_in_spec. by destruct (is_in x S). Qed.

Lemma given_not_in_false v (S : gset string) :
  given_not_in v S = false -> absent_or_in v S.
Proof.
  intros H x ->. by apply negb_is_in_false.
Qed.

Lemma absent_or_in_given v (S : gset string) :
  absent_or_in v S -> given_not_in v S = false.
Proof.
  intros H. destruct v as [x|]; [|reflexivity].
  unfold given_not_in. by rewrite (is_in_true _ _ (H x eq_refl)).
Qed.

Lemma command_valid engine format_ renderer formatter :
  engine ∈ ENGINES ->
  format_ ∈ FORMATS ->
  absent_or_in renderer RENDERERS ->
  absent_or_in formatter FORMATTERS ->
  (formatter <> None -> renderer <> None) ->
  command engine format_ renderer formatter
  = Ok [DOT_BINARY; StrArg ("-K" +:+ engine);
        StrArg ("-T" +:+ join ":" (not_none [Some format_; renderer; formatter]))].
Proof.
  intros He Hf Hr Hfm Hboth. unfold command.
  rewrite (is_in_true _ _ He), (is_in_true _ _ Hf).
  rewrite (absent_or_in_given _ _ Hr), (absent_or_in_given _ _ Hfm).
  destruct formatter as [fm|], renderer as [r|]; try reflexivity.
  exfalso. by apply Hboth.
Qed.

Lemma command_succeeds_iff engine format_ renderer formatter :
  succeeds (command engine format_ renderer formatter) <->
  engine ∈ ENGINES /\ format_ ∈ FORMATS
  /\ absent_or_in renderer RENDERERS /\ absent_or_in formatter FORMATTERS
  /\ (formatter <> None -> renderer <> None).
Proof.
  split.
  - intros [cmd Hcmd]. unfold command in Hcmd.
    apply raise_if_bind_Ok in Hcmd as [Hboth Hcmd].
    apply raise_if_bind_Ok in Hcmd as [He Hcmd].
    apply raise_if_bind_Ok in Hcmd as [Hf Hcmd].
    apply raise_if_bind_Ok in Hcmd as [Hr Hcmd].
    apply raise_if_bind_Ok in Hcmd as [Hfm _].
    split; [exact (negb_is_in_false _ _ He)|].
    split; [exact (negb_is_in_false _ _ Hf)|].
    split; [exact (given_not_in_false _ _ Hr)|].
    split; [exact (given_not_in_false _ _ Hfm)|].
    clear - Hboth. intros Hsome ->.
    destruct formatter; [discriminate Hboth | exact (Hsome eq_refl)].
  - intros (He & Hf & Hr & Hfm & Hboth). eexists.
    by apply command_valid.
Qed.

(** C2: with every supplied value in its capability set, and a formatter
    only together with a renderer, [command] returns the executable path,
    [-K] with the engine and [-T] with the format, renderer and formatter
    that were supplied, in that order, joined by colons; being a function
    of its arguments only, it leaves the state as it was. *)
Theorem command_returns_flags engine format_ renderer formatter :
  engine ∈ ENGINES ->
  format_ ∈ FORMATS ->
  absent_or_in renderer RENDERERS ->
  absent_or_in formatter FORMATTERS ->
  (formatter <> None -> renderer <> None) ->
  let token :=
    match renderer, formatter with
    | None, _ => format_
    | Some r, None => format_ +:+ ":" +:+ r
    | Some r, Some f => format_ +:+ ":" +:+ r +:+ ":" +:+ f
    end in
  command engine format_ renderer formatter
  = Ok [PathArg "dot"; StrArg ("-K" +:+ engine); StrArg ("-T" +:+ token)]
  /\ forall w, snd (lift (command engine format_ renderer formatter) w) = w.
Proof.
  intros He Hf Hr Hfm Hboth token. split; [|reflexivity].
  rewrite (command_valid _ _ _ _ He Hf Hr Hfm Hboth). subst token.
  destruct renderer as [r|], formatter as [fm|]; try reflexivity.
  exfalso. by apply Hboth.
Qed.

Lemma command_returns_flags_witness :
  command "dot" "png" (Some "cairo") (Some "gd")
  = Ok [PathArg "dot"; StrArg "-Kdot"; StrArg "-Tpng:cairo:gd"].
Proof.
  refine (proj1 (command_returns_flags "dot" "png" (Some "cairo") (Some "gd")
                   _ _ _ _ _)).
  - vm_compute; reflexivity.
  - vm_compute; reflexivity.
  - intros x [= <-]. vm_compute; reflexivity.
  - intros x [= <-]. vm_compute; reflexivity.
  - intros _ [=].
Defined.

(** C3: a formatter without a renderer is refused with
    [RequiredArgumentError], whatever the engine and the format. *)
Theorem command_formatter_needs_renderer engine format_ formatter :
  command engine format_ None (Some formatter)
  = Raise (RequiredArgumentError "formatter given without renderer").
Proof. reflexivity. Qed.

(** C8: the argument error comes first: with a formatter and no renderer,
    [command] raises [RequiredArgumentError] and no [ValueError], also when
    the engine, the format or the formatter is outside its capability
    set. *)
Theorem command_argument_error_first engine format_ formatter :
  engine ∉ ENGINES \/ format_ ∉ FORMATS \/ formatter ∉ FORMATTERS ->
  command engine format_ None (Some formatter)
  = Raise (RequiredArgumentError "formatter given without renderer")
  /\ forall msg,
      command engine format_ None (Some formatter) <> Raise (ValueError msg).
Proof.
  intros _. split; [reflexivity|]. intros msg H.
  change (Raise (A := list arg)
            (RequiredArgumentError "formatter given without renderer")
          = Raise (ValueError msg)) in H.
  discriminate H.
Qed.

Lemma command_argument_error_first_witness :
  command "DOT" "nope" None (Some "zzz")
  = Raise (RequiredArgumentError "formatter given without renderer").
Proof.
  refine (proj1 (command_argument_error_first "DOT" "nope" "zzz" _)).
  left. vm_compute. intros H. discriminate H.
Defined.




(** ** The default setters *)

(** C6: [set_default_engine] with a member of [ENGINES] returns the default
    that was in effect and makes the value the default, which an object
    without an engine of its own then reports; with any other value it
    raises the error naming the value and leaves the state as it was.
    [set_default_format] does the same over [FORMATS]. *)
Theorem set_default_swaps_or_refuses engine format_ w :
  (engine ∈ ENGINES ->
   exists w',
     set_default_engine engine w = (Ok (cls_engine w), w')
     /\ cls_engine w' = engine /\ cls_format w' = cls_format w
     /\ objects w' = objects w /\ calls w' = calls w
     /\ forall self, Graphviz.dict_of self w' !! "_engine" = None ->
                     Graphviz.engine self w' = engine)
  /\ (engine ∉ ENGINES ->
      set_default_engine engine w
      = (Raise (ValueError ("unknown engine: " +:+ repr engine)), w))
  /\ (format_ ∈ FORMATS ->
      exists w',
        set_default_format format_ w = (Ok (cls_format w), w')
        /\ cls_format w' = format_ /\ cls_engine w' = cls_engine w
        /\ objects w' = objects w /\ calls w' = calls w
        /\ forall self, Graphviz.dict_of self w' !! "_format" = None ->
                        Graphviz.format self w' = format_)
  /\ (format_ ∉ FORMATS ->
      set_default_format format_ w
      = (Raise (ValueError ("unknown format: " +:+ repr format_)), w)).
Proof.
  unfold set_default_engine, set_default_format, lift, mbind, M_bind, raise_if.
  repeat split.
  - intros He. rewrite (is_in_true _ _ He). eexists. split; [reflexivity|].
    repeat split. intros self Hnone. unfold Graphviz.engine.
    rewrite Hnone. reflexivity.
  - intros He. rewrite (is_in_false _ _ He). reflexivity.
  - intros Hf. rewrite (is_in_true _ _ Hf). eexists. split; [reflexivity|].
    repeat split. intros self Hnone. unfold Graphviz.format.
    rewrite Hnone. reflexivity.
  - intros Hf. rewrite (is_in_false _ _ Hf). reflexivity.
Qed.

Lemma set_default_swaps_or_refuses_witness :
  (exists w',
     set_default_engine "neato" initial_world = (Ok "dot", w')
     /\ cls_engine w' = "neato" /\ cls_format w' = "pdf"
     /\ objects w' = ∅ /\ calls w' = []
     /\ forall self, Graphviz.dict_of self w' !! "_engine" = None ->
                     Graphviz.engine self w' = "neato")
  /\ set_default_format "docx" initial_world
     = (Raise (ValueError "unknown format: 'docx'"), initial_world).
Proof.
  destruct (set_default_swaps_or_refuses "neato" "docx" initial_world)
    as (Hin & _ & _ & Hout).
  split.
  - apply Hin. vm_compute. reflexivity.
  - apply Hout. vm_compute. intros H. discriminate H.
Defined.

(** ** The rendering operations *)



(** ** Paths *)

Arguments PosixPath.is_sep : simpl never.

Lemma append_assoc (a b c : string) : (a +:+ b) +:+ c = a +:+ b +:+ c.
Proof.
  induction a as [|x a IH]; [reflexivity|].
  change (String x ((a +:+ b) +:+ c) = String x (a +:+ b +:+ c)).
  by rewrite IH.
Qed.

Lemma append_empty_r (a : string) : a +:+ EmptyString = a.
Proof.
  induction a as [|x a IH]; [reflexivity|].
  change (String x (a +:+ EmptyString) = String x a).
  by rewrite IH.
Qed.

Lemma nonempty_false s : PosixPath.nonempty s = false -> s = EmptyString.
Proof. destruct s; [reflexivity | intros H; discriminate H]. Qed.

Lemma startswith_sep_append a b :
  PosixPath.nonempty a = true ->
  PosixPath.startswith_sep (a +:+ b) = PosixPath.startswith_sep a.
Proof. destruct a; [intros H; discriminate H | reflexivity]. Qed.

Lemma no_sep_startswith t :
  has_sep t = false -> PosixPath.startswith_sep t = false.
Proof.
  destruct t as [|c t]; [reflexivity|]. simpl.
  intros H. by apply orb_false_iff in H as [-> _].
Qed.

(** The cut is at the last separator: the tail has none, and a head that is
    not empty ends with one. *)
Lemma cut_after_last_sep_spec p :
  p = fst (PosixPath.cut_after_last_sep p) +:+ snd (PosixPath.cut_after_last_sep p)
  /\ has_sep (snd (PosixPath.cut_after_last_sep p)) = false
  /\ (PosixPath.nonempty (fst (PosixPath.cut_after_last_sep p)) = true ->
      PosixPath.endswith_sep (fst (PosixPath.cut_after_last_sep p)) = true)
  /\ (PosixPath.nonempty (fst (PosixPath.cut_after_last_sep p)) = true ->
      PosixPath.startswith_sep (fst (PosixPath.cut_after_last_sep p))
      = PosixPath.startswith_sep p).
Proof.
  induction p as [|c p IH]; [by repeat split|].
  simpl. destruct (PosixPath.cut_after_last_sep p) as [h t].
  simpl in IH. destruct IH as (Hp & Ht & Hend & _).
  destruct (PosixPath.nonempty h) eqn:Hh.
  - simpl. split; [subst p; reflexivity|]. split; [exact Ht|].
    split; [|reflexivity].
    intros _. destruct h; [discriminate Hh | by apply Hend].
  - apply nonempty_false in Hh. subst h.
    destruct (PosixPath.is_sep c) eqn:Hc; simpl.
    + split; [subst p; reflexivity|]. split; [exact Ht|].
      split; intros _; exact Hc.
    + split; [subst p; reflexivity|]. split; [by rewrite Hc|].
      split; intros H; discriminate H.
Qed.

(** Stripping the separators at the end leaves the first character, and
    leaves something exactly when there is a character that is not one. *)
Lemma rstrip_sep_spec s :
  PosixPath.nonempty (PosixPath.rstrip_sep s) = negb (PosixPath.all_sep s)
  /\ PosixPath.endswith_sep (PosixPath.rstrip_sep s) = false
  /\ (PosixPath.all_sep s = false ->
      PosixPath.startswith_sep (PosixPath.rstrip_sep s)
      = PosixPath.startswith_sep s).
Proof.
  induction s as [|c s IH]; [by repeat split|].
  destruct IH as (Hne & Hend & _). simpl. rewrite Hne.
  destruct (PosixPath.all_sep s) eqn:Hall; simpl.
  - destruct (PosixPath.is_sep c) eqn:Hc; simpl.
    + repeat split. intros H; discriminate H.
    + destruct (PosixPath.rstrip_sep s); [|discriminate Hne].
      split; [reflexivity|]. split; [exact Hc | intros _; exact Hc].
  - rewrite andb_false_r. split; [reflexivity|].
    split; [|intros _; reflexivity].
    destruct (PosixPath.rstrip_sep s); [discriminate Hne | exact Hend].
Qed.

(** What [split] returns: a tail with no separator, and a head that, when
    it is not empty, starts as the path does. *)
Lemma split_spec p :
  has_sep (snd (PosixPath.split p)) = false
  /\ (PosixPath.nonempty (fst (PosixPath.split p)) = true ->
      PosixPath.startswith_sep (fst (PosixPath.split p))
      = PosixPath.startswith_sep p)
  /\ (PosixPath.nonempty (fst (PosixPath.split p)) = false ->
      snd (PosixPath.split p) = p).
Proof.
  unfold PosixPath.split.
  destruct (cut_after_last_sep_spec p) as (Hp & Ht & Hend & Hstart).
  destruct (PosixPath.cut_after_last_sep p) as [h t]. simpl in *.
  destruct (rstrip_sep_spec h) as (Hne & _ & Hfirst).
  destruct (PosixPath.nonempty h) eqn:Hh; simpl.
  - destruct (PosixPath.all_sep h) eqn:Hall; simpl.
    + split; [exact Ht|]. rewrite Hh. split; [exact Hstart|].
      intros H; discriminate H.
    + split; [exact Ht|]. rewrite Hne. simpl.
      split; [|intros H; discriminate H].
      intros _. rewrite (Hfirst eq_refl). by apply Hstart.
  - apply nonempty_false in Hh. subst h. simpl in *.
    split; [exact Ht|]. split; [intros H; discriminate H|].
    intros _. by rewrite Hp.
Qed.

(** Joining a directory with a name that does not start with a separator
    commutes with appending to the name. *)
Lemma join_append a b x :
  PosixPath.startswith_sep b = false ->
  PosixPath.startswith_sep (b +:+ x) = false ->
  PosixPath.join a (b +:+ x) = PosixPath.join a b +:+ x.
Proof.
  intros Hb Hbx. unfold PosixPath.join. rewrite Hb, Hbx.
  destruct (negb (PosixPath.nonempty a) || PosixPath.endswith_sep a).
  - by rewrite append_assoc.
  - by rewrite !append_assoc.
Qed.

Lemma join_startswith a b :
  PosixPath.nonempty a = true ->
  PosixPath.startswith_sep b = false ->
  PosixPath.startswith_sep (PosixPath.join a b) = PosixPath.startswith_sep a.
Proof.
  intros Ha Hb. unfold PosixPath.join. rewrite Hb.
  destruct (negb (PosixPath.nonempty a) || PosixPath.endswith_sep a);
    by apply startswith_sep_append.
Qed.

Lemma dot_suffix_startswith t x :
  has_sep t = false ->
  PosixPath.startswith_sep (t +:+ "." +:+ x) = false.
Proof.
  intros Ht. destruct t as [|c t]; [reflexivity|].
  apply no_sep_startswith in Ht. exact Ht.
Qed.

(** ** [render] *)

(** C5, as the code has it: [render] calls the runner once, with the
    working directory set to the directory part of the path ([None] when
    there is none), and then returns the file name with ['.'] and the
    ['.']-join of formatter, renderer and format appended, joined back onto
    the directory part.  That is the input path with the suffix appended
    whenever splitting and joining the path gives the path back, and it is
    relative exactly when the input path is. *)
Theorem render_returns_derived_path
    (run_check : list arg -> run_kwargs -> M CompletedProcess)
    engine format_ filepath renderer formatter quiet cmd :
  command engine format_ renderer formatter = Ok cmd ->
  let dirname := fst (PosixPath.split filepath) in
  let filename := snd (PosixPath.split filepath) in
  let suffix :=
    match formatter, renderer with
    | Some fm, Some r => fm +:+ "." +:+ r +:+ "." +:+ format_
    | _, Some r => r +:+ "." +:+ format_
    | _, None => format_
    end in
  exists kw rendered,
    kw_cwd kw = (if PosixPath.nonempty dirname then Some dirname else None)
    /\ (forall w,
          render run_check engine format_ filepath renderer formatter quiet w
          = (run_check (cmd ++ [StrArg "-O"; StrArg filename]) kw;;
             mret rendered) w)
    /\ (forall w proc w',
          run_check (cmd ++ [StrArg "-O"; StrArg filename]) kw w = (Ok proc, w') ->
          render run_check engine format_ filepath renderer formatter quiet w
          = (Ok rendered, w'))
    /\ rendered
       = (if PosixPath.nonempty dirname
          then PosixPath.join dirname (filename +:+ "." +:+ suffix)
          else filename +:+ "." +:+ suffix)
    /\ (PosixPath.join dirname filename = filepath ->
        rendered = filepath +:+ "." +:+ suffix)
    /\ PosixPath.isabs rendered = PosixPath.isabs filepath.
Proof.
  intros Hcmd dirname filename suffix.
  assert (Hboth : formatter <> None -> renderer <> None).
  { assert (Hok : succeeds (command engine format_ renderer formatter))
      by (eexists; exact Hcmd).
    apply command_succeeds_iff in Hok. apply Hok. }
  assert (Hsuffix : join "." (not_none [formatter; renderer; Some format_])
                    = suffix).
  { subst suffix. destruct formatter as [fm|], renderer as [r|];
      try reflexivity. exfalso. by apply Hboth. }
  destruct (split_spec filepath) as (Htail & Hhead & Hnodir).
  fold dirname in Hhead, Hnodir. fold filename in Htail, Hnodir.
  pose proof (no_sep_startswith _ Htail) as Hname.
  pose proof (dot_suffix_startswith _ suffix Htail) as Hname'.
  assert (Hrender : forall kw rendered,
    (kw, rendered)
    = (let '(cwd, rendered) :=
         if PosixPath.nonempty dirname
         then (Some dirname, PosixPath.join dirname (filename +:+ "." +:+ suffix))
         else (None, filename +:+ "." +:+ suffix) in
       ({| kw_input := None; kw_input_lines := None;
           kw_encoding := None; kw_capture_output := true;
           kw_cwd := cwd; kw_quiet := quiet;
           kw_stdout := None; kw_stderr := None |}, rendered)) ->
    forall w,
      render run_check engine format_ filepath renderer formatter quiet w
      = (run_check (cmd ++ [StrArg "-O"; StrArg filename]) kw;;
         mret rendered) w).
  { intros kw rendered Hkw w. unfold render.
    rewrite Hcmd, Hsuffix. subst dirname filename.
    destruct (PosixPath.split filepath) as [d f]. simpl fst in *. simpl snd in *.
    destruct (PosixPath.nonempty d); injection Hkw as -> ->; reflexivity. }
  destruct (PosixPath.nonempty dirname) eqn:Hdir.
  - eexists _, _. split; [|split; [apply Hrender; reflexivity|]].
    + reflexivity.
    + split.
      { intros w proc w' Hrun. rewrite (Hrender _ _ eq_refl).
        unfold mbind, M_bind. rewrite Hrun. reflexivity. }
      split; [reflexivity|]. split.
      * intros Hjoin. rewrite join_append by assumption. by rewrite Hjoin.
      * unfold PosixPath.isabs. rewrite join_startswith by assumption.
        by apply Hhead.
  - eexists _, _. split; [|split; [apply Hrender; reflexivity|]].
    + reflexivity.
    + split.
      { intros w proc w' Hrun. rewrite (Hrender _ _ eq_refl).
        unfold mbind, M_bind. rewrite Hrun. reflexivity. }
      split; [reflexivity|]. split.
      * intros _. by rewrite (Hnodir eq_refl).
      * unfold PosixPath.isabs. rewrite Hname'.
        rewrite <- (Hnodir eq_refl). by rewrite Hname.
Qed.

Lemma render_returns_derived_path_witness :
  exists kw rendered,
    kw_cwd kw = Some "doc"
    /\ (forall w,
          render (Running.run_check (os_prints EmptyString))
            "dot" "pdf" "doc/graph.gv" (Some "cairo") None false w
          = (Running.run_check (os_prints EmptyString)
               ([PathArg "dot"; StrArg "-Kdot"; StrArg "-Tpdf:cairo"]
                ++ [StrArg "-O"; StrArg "graph.gv"]) kw;;
             mret rendered) w)
    /\ rendered = "doc/graph.gv.cairo.pdf".
Proof.
  destruct (render_returns_derived_path
              (Running.run_check (os_prints EmptyString))
              "dot" "pdf" "doc/graph.gv" (Some "cairo") None false
              [PathArg "dot"; StrArg "-Kdot"; StrArg "-Tpdf:cairo"])
    as (kw & rendered & Hcwd & Hcall & _ & Hrendered & _).
  - vm_compute. reflexivity.
  - exists kw, rendered. split; [exact Hcwd|]. split; [exact Hcall|].
    exact Hrendered.
Defined.

(** C5 as stated fails: a doubled separator before the file name is not
    kept, so the result is not the input path with the suffix appended. *)
Lemma render_collapses_doubled_separator :
  fst (render (Running.run_check (os_prints EmptyString))
         "dot" "pdf" "a//b.gv" None None false initial_world)
  = Ok "a/b.gv.pdf"
  /\ "a/b.gv.pdf" <> "a//b.gv" +:+ "." +:+ "pdf".
Proof. split; [vm_compute; reflexivity | vm_compute; intros H; discriminate H]. Qed.

(** ** The [Graphviz] object *)

Lemma dict_of_set_dict self d w :
  Graphviz.dict_of self (Graphviz.set_dict self d w) = d.
Proof. unfold Graphviz.dict_of, Graphviz.set_dict. simpl. by rewrite lookup_insert_eq. Qed.

Lemma good_dict_empty : good_dict ∅.
Proof. intros name v S H. by rewrite lookup_empty in H. Qed.

Lemma good_dict_insert name v S d :
  allowed name = Some S -> v ∈ S -> good_dict d ->
  good_dict (<[name := v]> d).
Proof.
  intros Hname Hv Hd name' v' S' Hlook Hname'.
  destruct (decide (name = name')) as [<-|Hne].
  - rewrite lookup_insert_eq in Hlook. congruence.
  - rewrite lookup_insert_ne in Hlook by exact Hne. by eapply Hd.
Qed.

Lemma good_dict_delete name d : good_dict d -> good_dict (delete name d).
Proof.
  intros Hd name' v' S' Hlook Hname'.
  destruct (decide (name = name')) as [<-|Hne].
  - by rewrite lookup_delete_eq in Hlook.
  - rewrite lookup_delete_ne in Hlook by exact Hne. by eapply Hd.
Qed.

Lemma good_dict_of self w : good w -> good_dict (Graphviz.dict_of self w).
Proof.
  intros (_ & _ & Hobjs). unfold Graphviz.dict_of.
  destruct (objects w !! self) as [d|] eqn:Hd; simpl.
  - by eapply Hobjs.
  - apply good_dict_empty.
Qed.

Lemma good_set_dict self d w :
  good w -> good_dict d -> good (Graphviz.set_dict self d w).
Proof.
  intros (He & Hf & Hobjs) Hd. split; [exact He|]. split; [exact Hf|].
  intros self' d' Hlook. simpl in Hlook.
  destruct (decide (self = self')) as [<-|Hne].
  - rewrite lookup_insert_eq in Hlook. by injection Hlook as <-.
  - rewrite lookup_insert_ne in Hlook by exact Hne. by eapply Hobjs.
Qed.

Lemma good_initial : good initial_world.
Proof.
  split; [vm_compute; reflexivity|]. split; [vm_compute; reflexivity|].
  intros self d H. simpl in H. by rewrite lookup_empty in H.
Qed.

(** A validated assignment: the state changes only when the value is in
    the set. *)
Lemma validated_setattr self name x (S : gset string) msg w :
  (lift (raise_if (negb (is_in x S)) (ValueError msg));;
   Graphviz.setattr self name x) w
  = if is_in x S
    then (Ok tt, Graphviz.set_dict self
                   (<[name := x]> (Graphviz.dict_of self w)) w)
    else (Raise (ValueError msg), w).
Proof.
  unfold lift, raise_if, mbind, M_bind, Graphviz.setattr.
  by destruct (is_in x S).
Qed.

Lemma validated_setattr_good self name x (S : gset string) msg w :
  allowed name = Some S -> good w ->
  good (snd ((lift (raise_if (negb (is_in x S)) (ValueError msg));;
              Graphviz.setattr self name x) w)).
Proof.
  intros Hname Hw. rewrite validated_setattr.
  destruct (is_in x S) eqn:Hx; [|exact Hw].
  apply good_set_dict; [exact Hw|].
  eapply good_dict_insert; [exact Hname | by apply is_in_spec |].
  by apply good_dict_of.
Qed.

Lemma dict_pop_good self name w :
  good w -> good (snd (Graphviz.dict_pop self name w)).
Proof.
  intros Hw. apply good_set_dict; [exact Hw|].
  apply good_dict_delete. by apply good_dict_of.
Qed.

Lemma engine_setter_good self v w :
  good w -> good (snd (Graphviz.engine_setter self v w)).
Proof. by apply validated_setattr_good. Qed.

Lemma format_setter_good self v w :
  good w -> good (snd (Graphviz.format_setter self v w)).
Proof. by apply validated_setattr_good. Qed.

Lemma renderer_setter_good self v w :
  good w -> good (snd (Graphviz.renderer_setter self v w)).
Proof.
  destruct v as [r|]; [by apply validated_setattr_good | apply dict_pop_good].
Qed.

Lemma formatter_setter_good self v w :
  good w -> good (snd (Graphviz.formatter_setter self v w)).
Proof.
  destruct v as [f|]; [by apply validated_setattr_good | apply dict_pop_good].
Qed.

Lemma bind_good {A B} (c : M A) (f : A -> M B) w :
  good (snd (c w)) ->
  (forall a w', good w' -> good (snd (f a w'))) ->
  good (snd ((c ≫= f) w)).
Proof.
  intros Hc Hf. unfold mbind, M_bind.
  destruct (c w) as [[a|e] w']; simpl in *; [by apply Hf | exact Hc].
Qed.

Lemma init_good self format engine renderer formatter w :
  good w ->
  good (snd (Graphviz.__init__ self format engine renderer formatter w)).
Proof.
  intros Hw. unfold Graphviz.__init__.
  apply bind_good.
  { destruct format; [by apply format_setter_good | exact Hw]. }
  intros _ w1 Hw1. apply bind_good.
  { destruct engine; [by apply engine_setter_good | exact Hw1]. }
  intros _ w2 Hw2. apply bind_good.
  { by apply renderer_setter_good. }
  intros _ w3 Hw3. by apply formatter_setter_good.
Qed.

Lemma new_good format engine renderer formatter w :
  good w -> good (snd (Graphviz.new format engine renderer formatter w)).
Proof.
  intros Hw. unfold Graphviz.new. apply bind_good.
  - apply init_good. apply good_set_dict; [exact Hw | apply good_dict_empty].
  - intros _ w' Hw'. exact Hw'.
Qed.

Lemma set_default_engine_good v w :
  good w -> good (snd (set_default_engine v w)).
Proof.
  intros Hw. unfold set_default_engine, lift, raise_if, mbind, M_bind.
  destruct (is_in v ENGINES) eqn:Hv; [|exact Hw].
  destruct Hw as (_ & Hf & Hobjs).
  split; [by apply is_in_spec|]. split; [exact Hf | exact Hobjs].
Qed.

Lemma set_default_format_good v w :
  good w -> good (snd (set_default_format v w)).
Proof.
  intros Hw. unfold set_default_format, lift, raise_if, mbind, M_bind.
  destruct (is_in v FORMATS) eqn:Hv; [|exact Hw].
  destruct Hw as (He & _ & Hobjs).
  split; [exact He|]. split; [by apply is_in_spec | exact Hobjs].
Qed.

Lemma step_good w w' : step w w' -> good w -> good w'.
Proof.
  intros Hstep Hw. destruct Hstep.
  - by apply new_good.
  - by apply engine_setter_good.
  - by apply format_setter_good.
  - by apply renderer_setter_good.
  - by apply formatter_setter_good.
  - by apply set_default_engine_good.
  - by apply set_default_format_good.
  - exact Hw.
Qed.

Lemma reachable_good w : reachable w -> good w.
Proof.
  unfold reachable. revert w.
  apply rtc_ind_r; [apply good_initial|].
  intros w1 w2 _ Hstep Hw1. by eapply step_good.
Qed.

Lemma good_well_configured self w : good w -> well_configured self w.
Proof.
  intros Hw. pose proof (good_dict_of self w Hw) as Hd.
  destruct Hw as (He & Hf & _).
  assert (Hengine : Graphviz.engine self w ∈ ENGINES).
  { unfold Graphviz.engine.
    destruct (Graphviz.dict_of self w !! "_engine") as [v|] eqn:Hv;
      [by eapply Hd | exact He]. }
  assert (Hformat : Graphviz.format self w ∈ FORMATS).
  { unfold Graphviz.format.
    destruct (Graphviz.dict_of self w !! "_format") as [v|] eqn:Hv;
      [by eapply Hd | exact Hf]. }
  split; [split; [exact Hengine | by apply ENGINES_lowercase]|].
  split; [split; [exact Hformat | by apply FORMATS_lowercase]|].
  split.
  - intros r. unfold Graphviz.renderer, Graphviz._renderer.
    destruct (Graphviz.dict_of self w !! "_renderer") as [v|] eqn:Hv;
      [|intros H; discriminate H].
    intros [= <-].
    assert (v ∈ RENDERERS) by (by eapply Hd).
    split; [done | by apply RENDERERS_lowercase].
  - intros f. unfold Graphviz.formatter, Graphviz._formatter.
    destruct (Graphviz.dict_of self w !! "_formatter") as [v|] eqn:Hv;
      [|intros H; discriminate H].
    intros [= <-].
    assert (v ∈ FORMATTERS) by (by eapply Hd).
    split; [done | by apply FORMATTERS_lowercase].
Qed.

Lemma reachable_step w w' : reachable w -> step w w' -> reachable w'.
Proof. unfold reachable. intros Hw Hstep. by eapply rtc_r. Qed.

(** A validated assignment, read back. *)
Lemma validated_setattr_spec self name x (S : gset string) msg w :
  allowed name = Some S -> good w ->
  (x ∈ S ->
   exists w',
     (lift (raise_if (negb (is_in x S)) (ValueError msg));;
      Graphviz.setattr self name x) w = (Ok tt, w')
     /\ Graphviz.dict_of self w' !! name = Some x
     /\ well_configured self w')
  /\ (x ∉ S ->
      (lift (raise_if (negb (is_in x S)) (ValueError msg));;
       Graphviz.setattr self name x) w = (Raise (ValueError msg), w)).
Proof.
  intros Hname Hw. split; intros Hx.
  - pose proof (validated_setattr_good self name x S msg w Hname Hw) as Hgood.
    rewrite validated_setattr in *. rewrite (is_in_true _ _ Hx) in *.
    eexists. split; [reflexivity|]. split.
    + by rewrite dict_of_set_dict, lookup_insert_eq.
    + by apply good_well_configured.
  - rewrite validated_setattr. by rewrite (is_in_false _ _ Hx).
Qed.

Lemma dict_pop_spec self name w :
  good w ->
  exists w',
    Graphviz.dict_pop self name w = (Ok tt, w')
    /\ Graphviz.dict_of self w' !! name = None
    /\ well_configured self w'.
Proof.
  intros Hw. eexists. split; [reflexivity|]. split.
  - by rewrite dict_of_set_dict, lookup_delete_eq.
  - apply good_well_configured. by apply (dict_pop_good self name w).
Qed.

(** C10: in every state a program can reach, an object's engine, format,
    renderer and formatter are lowercase members of their sets (renderer
    and formatter may be [None]); this holds of a new object; assigning a
    value whose lowercase form is in the set stores that form and keeps the
    invariant; assigning any other value raises and leaves the state as it
    was; assigning [None] to renderer or formatter makes it [None]. *)
Theorem graphviz_object_invariant w self :
  reachable w ->
  well_configured self w
  /\ (forall format engine renderer formatter obj w',
        Graphviz.new format engine renderer formatter w = (Ok obj, w') ->
        reachable w' /\ well_configured obj w')
  /\ (forall v,
        (lower v ∈ ENGINES ->
         exists w', Graphviz.engine_setter self v w = (Ok tt, w')
                    /\ Graphviz.engine self w' = lower v
                    /\ well_configured self w')
        /\ (lower v ∉ ENGINES ->
            Graphviz.engine_setter self v w
            = (Raise (ValueError ("unknown engine: " +:+ repr (lower v))), w)))
  /\ (forall v,
        (lower v ∈ FORMATS ->
         exists w', Graphviz.format_setter self v w = (Ok tt, w')
                    /\ Graphviz.format self w' = lower v
                    /\ well_configured self w')
        /\ (lower v ∉ FORMATS ->
            Graphviz.format_setter self v w
            = (Raise (ValueError ("unknown format: " +:+ repr (lower v))), w)))
  /\ (forall v,
        (lower v ∈ RENDERERS ->
         exists w', Graphviz.renderer_setter self (Some v) w = (Ok tt, w')
                    /\ Graphviz.renderer self w' = Some (lower v)
                    /\ well_configured self w')
        /\ (lower v ∉ RENDERERS ->
            Graphviz.renderer_setter self (Some v) w
            = (Raise (ValueError ("unknown renderer: " +:+ repr (lower v))), w)))
  /\ (forall v,
        (lower v ∈ FORMATTERS ->
         exists w', Graphviz.formatter_setter self (Some v) w = (Ok tt, w')
                    /\ Graphviz.formatter self w' = Some (lower v)
                    /\ well_configured self w')
        /\ (lower v ∉ FORMATTERS ->
            Graphviz.formatter_setter self (Some v) w
            = (Raise (ValueError ("unknown formatter: " +:+ repr (lower v))), w)))
  /\ (exists w', Graphviz.renderer_setter self None w = (Ok tt, w')
                 /\ Graphviz.renderer self w' = None
                 /\ well_configured self w')
  /\ (exists w', Graphviz.formatter_setter self None w = (Ok tt, w')
                 /\ Graphviz.formatter self w' = None
                 /\ well_configured self w').
Proof.
  intros Hreach. pose proof (reachable_good w Hreach) as Hw.
  split; [by apply good_well_configured|].
  split.
  { intros format engine renderer formatter obj w' Hnew.
    assert (Hstep : step w w').
    { replace w' with (snd (Graphviz.new format engine renderer formatter w))
        by (by rewrite Hnew).
      constructor. }
    split; [by eapply reachable_step|].
    apply good_well_configured. by eapply step_good. }
  split.
  { intros v.
    destruct (validated_setattr_spec self "_engine" (lower v) ENGINES
                ("unknown engine: " +:+ repr (lower v)) w eq_refl Hw)
      as [Hin Hout].
    split; [|exact Hout].
    intros Hv. destruct (Hin Hv) as (w' & Hset & Hget & Hinv).
    exists w'. split; [exact Hset|]. split; [|exact Hinv].
    unfold Graphviz.engine. by rewrite Hget. }
  split.
  { intros v.
    destruct (validated_setattr_spec self "_format" (lower v) FORMATS
                ("unknown format: " +:+ repr (lower v)) w eq_refl Hw)
      as [Hin Hout].
    split; [|exact Hout].
    intros Hv. destruct (Hin Hv) as (w' & Hset & Hget & Hinv).
    exists w'. split; [exact Hset|]. split; [|exact Hinv].
    unfold Graphviz.format. by rewrite Hget. }
  split.
  { intros v.
    destruct (validated_setattr_spec self "_renderer" (lower v) RENDERERS
                ("unknown renderer: " +:+ repr (lower v)) w eq_refl Hw)
      as [Hin Hout].
    split; [|exact Hout].
    intros Hv. destruct (Hin Hv) as (w' & Hset & Hget & Hinv).
    exists w'. split; [exact Hset|]. split; [|exact Hinv].
    unfold Graphviz.renderer. by rewrite Hget. }
  split.
  { intros v.
    destruct (validated_setattr_spec self "_formatter" (lower v) FORMATTERS
                ("unknown formatter: " +:+ repr (lower v)) w eq_refl Hw)
      as [Hin Hout].
    split; [|exact Hout].
    intros Hv. destruct (Hin Hv) as (w' & Hset & Hget & Hinv).
    exists w'. split; [exact Hset|]. split; [|exact Hinv].
    unfold Graphviz.formatter. by rewrite Hget. }
  split.
  - destruct (dict_pop_spec self "_renderer" w Hw) as (w' & Hpop & Hget & Hinv).
    exists w'. split; [exact Hpop|]. split; [|exact Hinv].
    unfold Graphviz.renderer. by rewrite Hget.
  - destruct (dict_pop_spec self "_formatter" w Hw) as (w' & Hpop & Hget & Hinv).
    exists w'. split; [exact Hpop|]. split; [|exact Hinv].
    unfold Graphviz.formatter. by rewrite Hget.
Qed.

Lemma graphviz_object_invariant_witness :
  well_configured 0
    (snd (Graphviz.new (Some "PNG") (Some "NEATO") (Some "Cairo") None
            initial_world)).
Proof.
  refine (proj1 (graphviz_object_invariant _ 0 _)).
  apply rtc_once. constructor.
Defined.

(** ** The matcher *)

Lemma strip_prefix_spec cs s s' :
  Re.strip_prefix cs s = Some s' -> s = cs ++ s'.
Proof.
  revert s. induction cs as [|c cs IH]; intros s H.
  - simpl in H. by injection H as ->.
  - destruct s as [|d s]; [discriminate H|]. simpl in H.
    destruct (Ascii.eqb c d) eqn:Hcd; [|discriminate H].
    apply Ascii.eqb_eq in Hcd as ->. simpl. f_equal. by apply IH.
Qed.

Lemma strip_prefix_app cs s : Re.strip_prefix cs (cs ++ s) = Some s.
Proof.
  induction cs as [|c cs IH]; [reflexivity|].
  simpl. by rewrite Ascii.eqb_refl.
Qed.

Lemma strip_n_spec n p s s' :
  Re.strip_n n p s = Some s' ->
  exists w, s = w ++ s' /\ length w = n /\ forallb p w = true.
Proof.
  revert s. induction n as [|n IH]; intros s H.
  - simpl in H. injection H as ->. by exists [].
  - destruct s as [|c s]; [discriminate H|]. simpl in H.
    destruct (p c) eqn:Hc; [|discriminate H].
    destruct (IH _ H) as (w & -> & Hlen & Hall).
    exists (c :: w). simpl. rewrite Hc, Hlen, Hall. by repeat split.
Qed.

Lemma strip_n_app p w s :
  forallb p w = true -> Re.strip_n (length w) p (w ++ s) = Some s.
Proof.
  induction w as [|c w IH]; [reflexivity|]. simpl.
  intros H. apply andb_true_iff in H as [-> H]. by apply IH.
Qed.

Section MatcherFacts.
Context {R : Type}.
Implicit Types (k : Re.cont (R := R)) (s w : list ascii) (g : Re.captures).

(** A greedy run gives the rest of the text to the continuation after
    some characters of the class, with the captures untouched. *)
Lemma many_sound p s g k x :
  Re.many p s g k = Some x ->
  exists w s', s = w ++ s' /\ forallb p w = true /\ k s' g = Some x.
Proof.
  induction s as [|c s IH]; simpl; intros H.
  - by exists [], [].
  - destruct (p c) eqn:Hc; [|by exists [], (c :: s)].
    destruct (Re.many p s g k) as [y|] eqn:Hmany.
    + injection H as ->. destruct (IH eq_refl) as (w & s' & -> & Hw & Hk).
      exists (c :: w), s'. simpl. by rewrite Hc, Hw.
    + by exists [], (c :: s).
Qed.

(** It finds a way through whenever one exists. *)
Lemma many_complete p w s g k :
  forallb p w = true -> k s g <> None -> Re.many p (w ++ s) g k <> None.
Proof.
  intros Hw Hk. induction w as [|c w IH]; simpl.
  - destruct s as [|c s]; [exact Hk|]. simpl.
    destruct (p c); [|exact Hk].
    by destruct (Re.many p s g k).
  - simpl in Hw. apply andb_true_iff in Hw as [-> Hw].
    specialize (IH Hw). by destruct (Re.many p (w ++ s) g k).
Qed.

End MatcherFacts.

Lemma take_app_length_diff (w s : list ascii) :
  take (length (w ++ s) - length s) (w ++ s) = w.
Proof.
  rewrite length_app. replace (length w + length s - length s) with (length w) by lia.
  by rewrite take_app_length.
Qed.

(** The last three parts of [matches_sound] when the captures did not
    change, or grew, and no group is sure to be set. *)
Ltac same_captures :=
  split; [assumption|];
  split; [intros ? ?; auto | intros ? Hi; inversion Hi].

Section MatcherSound.
Context {R : Type}.
Implicit Types (k : Re.cont (R := R)) (s w : list ascii) (g : Re.captures).

(** What a successful match tells: the text starts with a word of the
    pattern, the continuation succeeded on the rest, groups that were set
    stay set, the groups that take part in every match are set, and
    captures are digit runs when the groups enclose digit runs only. *)
Lemma matches_sound r :
  groups_of_digits r ->
  forall s g k x,
    Re.matches r s g k = Some x ->
    digit_captures g ->
    exists w s' g',
      s = w ++ s' /\ Re.lang r w /\ k s' g' = Some x
      /\ digit_captures g'
      /\ (forall i, is_Some (g !! i) -> is_Some (g' !! i))
      /\ (forall i, i ∈ sure_groups r -> is_Some (g' !! i)).
Proof.
  induction r as [cs|p|n p|r1 IH1 r2 IH2|r1 IH1 r2 IH2|r1 IH1|i r1 IH1];
    intros Hr s g k x Hm Hg; simpl in Hm.
  - destruct (Re.strip_prefix cs s) as [s'|] eqn:Hs; [|discriminate Hm].
    apply strip_prefix_spec in Hs. exists cs, s', g.
    split; [exact Hs|]. split; [apply Re.lang_Lit|]. split; [exact Hm|].
    same_captures.
  - destruct s as [|c s]; [discriminate Hm|].
    destruct (p c) eqn:Hc; [|discriminate Hm].
    apply many_sound in Hm as (w & s' & -> & Hw & Hk).
    exists (c :: w), s', g.
    split; [reflexivity|]. split; [|split; [exact Hk | same_captures]].
    apply Re.lang_Plus; [done | simpl; by rewrite Hc, Hw].
  - destruct (Re.strip_n n p s) as [s'|] eqn:Hs; [|discriminate Hm].
    apply strip_n_spec in Hs as (w & -> & Hlen & Hw). exists w, s', g.
    split; [reflexivity|]. split; [by apply Re.lang_Rep|].
    split; [exact Hm | same_captures].
  - destruct Hr as [Hr1 Hr2].
    destruct (IH1 Hr1 _ _ _ _ Hm Hg) as (w1 & s1 & g1 & -> & Hw1 & Hm2 & Hg1 & Hkeep1 & Hsure1).
    destruct (IH2 Hr2 _ _ _ _ Hm2 Hg1) as (w2 & s2 & g2 & -> & Hw2 & Hk & Hg2 & Hkeep2 & Hsure2).
    exists (w1 ++ w2), s2, g2.
    split; [by rewrite app_assoc|]. split; [by constructor|].
    split; [exact Hk|]. split; [exact Hg2|]. split.
    + intros i Hi. by apply Hkeep2, Hkeep1.
    + intros i Hi. simpl in Hi. apply elem_of_app in Hi as [Hi|Hi].
      * by apply Hkeep2, Hsure1.
      * by apply Hsure2.
  - destruct Hr as [Hr1 Hr2].
    destruct (Re.matches r1 s g k) as [y|] eqn:Hm1.
    + injection Hm as ->.
      destruct (IH1 Hr1 _ _ _ _ Hm1 Hg) as (w & s' & g' & -> & Hw & Hk & Hg' & Hkeep & _).
      exists w, s', g'.
      split; [reflexivity|]. split; [by apply Re.lang_Alt_l|].
      split; [exact Hk | same_captures].
    + destruct (IH2 Hr2 _ _ _ _ Hm Hg) as (w & s' & g' & -> & Hw & Hk & Hg' & Hkeep & _).
      exists w, s', g'.
      split; [reflexivity|]. split; [by apply Re.lang_Alt_r|].
      split; [exact Hk | same_captures].
  - destruct (Re.matches r1 s g k) as [y|] eqn:Hm1.
    + injection Hm as ->.
      destruct (IH1 Hr _ _ _ _ Hm1 Hg) as (w & s' & g' & -> & Hw & Hk & Hg' & Hkeep & _).
      exists w, s', g'.
      split; [reflexivity|]. split; [by apply Re.lang_Opt_some|].
      split; [exact Hk | same_captures].
    + exists [], s, g.
      split; [reflexivity|]. split; [apply Re.lang_Opt_none|].
      split; [exact Hm | same_captures].
  - destruct Hr as [Hdigits Hr1].
    destruct (IH1 Hr1 _ _ _ _ Hm Hg) as (w & s' & g' & -> & Hw & Hk & Hg' & Hkeep & Hsure).
    rewrite take_app_length_diff in Hk.
    exists w, s', (<[i := w]> g').
    split; [reflexivity|]. split; [by constructor|]. split; [exact Hk|].
    split; [|split].
    + intros j d Hj. destruct (decide (i = j)) as [<-|Hne].
      * rewrite lookup_insert_eq in Hj. injection Hj as <-. by apply Hdigits.
      * rewrite lookup_insert_ne in Hj by exact Hne. by eapply Hg'.
    + intros j Hj. destruct (decide (i = j)) as [<-|Hne].
      * rewrite lookup_insert_eq. by eexists.
      * rewrite lookup_insert_ne by exact Hne. by apply Hkeep.
    + intros j Hj. simpl in Hj. destruct (decide (i = j)) as [<-|Hne].
      * rewrite lookup_insert_eq. by eexists.
      * rewrite lookup_insert_ne by exact Hne.
        apply elem_of_cons in Hj as [->|Hj]; [done | by apply Hsure].
Qed.

(** The matcher finds a match whenever the text starts with a word of the
    pattern and the continuation accepts the rest whatever the captures. *)
Lemma matches_complete r w :
  Re.lang r w ->
  forall s g k,
    (forall g', k s g' <> None) ->
    Re.matches r (w ++ s) g k <> None.
Proof.
  induction 1 as [cs|p w Hne Hw|n p w Hlen Hw|r1 r2 w1 w2 _ IH1 _ IH2
                 |r1 r2 w _ IH|r1 r2 w _ IH|r1 w _ IH|r1|i r1 w _ IH];
    intros s g k Hk; simpl.
  - rewrite strip_prefix_app. apply Hk.
  - destruct w as [|c w]; [done|]. simpl in *.
    apply andb_true_iff in Hw as [-> Hw]. by apply many_complete.
  - subst n. rewrite strip_n_app by exact Hw. apply Hk.
  - rewrite <- app_assoc. apply IH1. intros g'. by apply IH2.
  - specialize (IH s g k Hk). by destruct (Re.matches r1 (w ++ s) g k).
  - destruct (Re.matches r1 (w ++ s) g k); [done | by apply IH].
  - specialize (IH s g k Hk). by destruct (Re.matches r1 (w ++ s) g k).
  - destruct (Re.matches r1 s g k); [done | apply Hk].
  - apply IH. intros g'. apply Hk.
Qed.

End MatcherSound.

(** [re.search] finds a match exactly when some substring is a word of the
    pattern. *)
Lemma search_sound r s g :
  groups_of_digits r ->
  Re.search r s = Some g ->
  Re.has_match r s /\ digit_captures g
  /\ forall i, i ∈ sure_groups r -> is_Some (g !! i).
Proof.
  intros Hr. induction s as [|c s IH]; simpl; unfold Re.match_here.
  - destruct (Re.matches r [] ∅ (fun _ g0 => Some g0)) as [g0|] eqn:Hm;
      [|intros H; discriminate H].
    intros [= <-].
    destruct (matches_sound r Hr _ _ _ _ Hm)
      as (w & s' & g' & Hs & Hw & [= <-] & Hg' & _ & Hsure).
    { intros i d H. by rewrite lookup_empty in H. }
    split; [|by split]. exists [], w, s'. by split.
  - destruct (Re.matches r (c :: s) ∅ (fun _ g0 => Some g0)) as [g0|] eqn:Hm.
    + intros [= <-].
      destruct (matches_sound r Hr _ _ _ _ Hm)
        as (w & s' & g' & Hs & Hw & [= <-] & Hg' & _ & Hsure).
      { intros i d H. by rewrite lookup_empty in H. }
      split; [|by split]. exists [], w, s'. by split.
    + intros Hsearch. destruct (IH Hsearch) as ((pre & w & post & -> & Hw) & Hg & Hsure).
      split; [|by split]. exists (c :: pre), w, post. by split.
Qed.

Lemma search_complete r s : Re.has_match r s -> Re.search r s <> None.
Proof.
  intros (pre & w & post & -> & Hw).
  assert (Hhere : Re.match_here r (w ++ post) <> None).
  { unfold Re.match_here. by apply matches_complete. }
  induction pre as [|c pre IH]; simpl.
  - destruct (w ++ post); simpl; by destruct (Re.match_here r _).
  - by destruct (Re.match_here r (c :: pre ++ w ++ post)).
Qed.

Lemma search_None_iff r s :
  groups_of_digits r -> Re.search r s = None <-> ~ Re.has_match r s.
Proof.
  intros Hr. split.
  - intros Hnone Hmatch. by apply (search_complete r s).
  - intros Hno. destruct (Re.search r s) as [g|] eqn:Hs; [|reflexivity].
    destruct Hno. by apply (search_sound r s g).
Qed.

(** ** [version] *)




Lemma plus_digit_run w : Re.lang (Re.Plus is_digit) w -> digit_run w.
Proof. intros H. inversion H; subst. by split. Qed.

Lemma version_pattern_groups : groups_of_digits version_pattern.
Proof.
  unfold version_pattern, Re.lit. cbn [groups_of_digits].
  repeat first [exact plus_digit_run | exact I | split].
Qed.

(** [version] is one call of the runner and then the reading of what was
    printed. *)
Lemma version_unfold run_check w :
  version run_check w
  = match run_check [DOT_BINARY; StrArg "-V"] version_kwargs w with
    | (Ok proc, w') => (banner_result (stdout proc), w')
    | (Raise e, w') => (Raise e, w')
    end.
Proof.
  unfold version, banner_result, mbind, M_bind, version_kwargs.
  destruct (run_check _ _ w) as [[proc|e] w']; [|reflexivity].
  by destruct (Re.search _ _).
Qed.

(** [int] below and above the limit. *)
Lemma int_within d : within_limit d -> int d = Ok (int_digits d).
Proof.
  unfold within_limit, int. intros H.
  by rewrite (proj2 (Z.ltb_ge _ _) H).
Qed.

Lemma int_over d :
  ~ within_limit d -> int d = Raise (ValueError (limit_message d)).
Proof.
  unfold within_limit, int. intros H.
  rewrite (proj2 (Z.ltb_lt _ _)) by lia. reflexivity.
Qed.

(** The tuple of the numbers: all of them when no run is over the limit,
    and otherwise the error of the first run that is. *)
Lemma tuple_of_int ds :
  match first_over_limit ds with
  | None => tuple_of int ds = Ok (int_digits <$> ds)
  | Some d => tuple_of int ds = Raise (ValueError (limit_message d))
  end.
Proof.
  induction ds as [|d ds IH]; [reflexivity|].
  cbn [first_over_limit tuple_of].
  destruct (max_str_digits <? Z.of_nat (length d))%Z eqn:Hd.
  - rewrite int_over; [reflexivity|]. unfold within_limit.
    apply Z.ltb_lt in Hd. lia.
  - rewrite int_within by (unfold within_limit; apply Z.ltb_ge in Hd; lia).
    destruct (first_over_limit ds) as [d'|]; by rewrite IH.
Qed.


Lemma first_over_limit_None ds :
  Forall within_limit ds -> first_over_limit ds = None.
Proof.
  induction 1 as [|d ds Hd _ IH]; [reflexivity|].
  cbn [first_over_limit]. unfold within_limit in Hd.
  by rewrite (proj2 (Z.ltb_ge _ _) Hd).
Qed.

Lemma tuple_of_int_within ds :
  Forall within_limit ds -> tuple_of int ds = Ok (int_digits <$> ds).
Proof.
  intros H. pose proof (tuple_of_int ds) as Hds.
  by rewrite (first_over_limit_None _ H) in Hds.
Qed.

Lemma first_over_limit_spec ds d :
  first_over_limit ds = Some d -> d ∈ ds /\ ~ within_limit d.
Proof.
  induction ds as [|d0 ds IH]; [intros H; discriminate H|].
  cbn [first_over_limit].
  destruct (max_str_digits <? Z.of_nat (length d0))%Z eqn:Hd.
  - intros [= <-]. split; [apply list_elem_of_here|].
    unfold within_limit. apply Z.ltb_lt in Hd. lia.
  - intros H. destruct (IH H) as [Hin Hover].
    split; [by apply list_elem_of_further | exact Hover].
Qed.

(** What is left of the groups after the absent ones are dropped was
    captured. *)
Lemma not_none_captured r (g : Re.captures) d :
  d ∈ not_none (Re.groups r g) -> exists i, g !! i = Some d.
Proof.
  unfold not_none, Re.groups. intros Hin.
  apply list_elem_of_omap in Hin as (o & Ho & Hd). cbn in Hd. subst o.
  apply list_elem_of_fmap in Ho as (i & Hi & _). by exists i.
Qed.

Lemma not_none_elem_of r (g : Re.captures) d :
  d ∈ not_none (Re.groups r g) -> digit_captures g -> digit_run d.
Proof.
  intros Hin Hg. apply not_none_captured in Hin as [i Hi]. by apply (Hg i d).
Qed.

(** ** Captures are no longer than the text *)

Section MatcherWithin.
Context {R : Type}.
Implicit Types (k : Re.cont (R := R)) (s w : list ascii) (g : Re.captures).

(** A successful match called its continuation on a rest of the text, with
    captures that are pieces of the text. *)
Lemma matches_within n r :
  forall s g k x,
    Re.matches r s g k = Some x ->
    captures_within n g -> length s <= n ->
    exists s' g',
      k s' g' = Some x /\ captures_within n g' /\ length s' <= length s.
Proof.
  induction r as [cs|p|m p|r1 IH1 r2 IH2|r1 IH1 r2 IH2|r1 IH1|i r1 IH1];
    intros s g k x Hm Hg Hn; cbn [Re.matches] in Hm.
  - destruct (Re.strip_prefix cs s) as [s'|] eqn:Hs; [|discriminate Hm].
    apply strip_prefix_spec in Hs. exists s', g.
    split; [exact Hm|]. split; [exact Hg|].
    subst s. rewrite length_app. lia.
  - destruct s as [|c s]; [discriminate Hm|].
    destruct (p c); [|discriminate Hm].
    apply many_sound in Hm as (w & s' & -> & _ & Hk). exists s', g.
    split; [exact Hk|]. split; [exact Hg|].
    cbn [length]. rewrite length_app. lia.
  - destruct (Re.strip_n m p s) as [s'|] eqn:Hs; [|discriminate Hm].
    apply strip_n_spec in Hs as (w & -> & _ & _). exists s', g.
    split; [exact Hm|]. split; [exact Hg|]. rewrite length_app. lia.
  - destruct (IH1 _ _ _ _ Hm Hg Hn) as (s1 & g1 & Hm2 & Hg1 & Hl1).
    destruct (IH2 _ _ _ _ Hm2 Hg1 ltac:(lia)) as (s2 & g2 & Hk & Hg2 & Hl2).
    exists s2, g2. split; [exact Hk|]. split; [exact Hg2 | lia].
  - destruct (Re.matches r1 s g k) as [y|] eqn:Hm1.
    + injection Hm as ->. exact (IH1 _ _ _ _ Hm1 Hg Hn).
    + exact (IH2 _ _ _ _ Hm Hg Hn).
  - destruct (Re.matches r1 s g k) as [y|] eqn:Hm1.
    + injection Hm as ->. exact (IH1 _ _ _ _ Hm1 Hg Hn).
    + exists s, g. split; [exact Hm|]. split; [exact Hg | lia].
  - destruct (IH1 _ _ _ _ Hm Hg Hn) as (s' & g' & Hk & Hg' & Hl).
    exists s', (<[i := take (length s - length s') s]> g').
    split; [exact Hk|]. split; [|exact Hl].
    intros j d Hj. destruct (decide (i = j)) as [->|Hij].
    + rewrite lookup_insert_eq in Hj. injection Hj as <-.
      rewrite length_take. lia.
    + rewrite lookup_insert_ne in Hj by exact Hij. by apply (Hg' j).
Qed.

End MatcherWithin.

(** Whatever [search] captures is no longer than the text. *)
Lemma search_within r s g :
  Re.search r s = Some g -> captures_within (length s) g.
Proof.
  assert (Hhere : forall t g0, Re.match_here r t = Some g0 ->
                               captures_within (length t) g0).
  { intros t g0 Hm. unfold Re.match_here in Hm.
    destruct (matches_within (length t) r t ∅ _ _ Hm)
      as (s' & g' & [= <-] & Hg' & _); [|lia|exact Hg'].
    intros i d H. by rewrite lookup_empty in H. }
  induction s as [|c s IH]; cbn [Re.search].
  - destruct (Re.match_here r []) as [g0|] eqn:Hm; [|intros H; discriminate H].
    intros [= <-]. by apply Hhere.
  - destruct (Re.match_here r (c :: s)) as [g0|] eqn:Hm.
    + intros [= <-]. by apply Hhere.
    + intros H i d Hi. specialize (IH H i d Hi). cbn [length]. lia.
Qed.

Lemma length_list_ascii_of_string (t : string) :
  length (list_ascii_of_string t) = String.length t.
Proof. induction t as [|c t IH]; [reflexivity|]. cbn. by rewrite IH. Qed.

(** The numbers of a text of at most 4300 characters are all within the
    limit of [int]. *)
Lemma short_text_within r (t : string) g :
  String.length t <= 4300 ->
  Re.search r (list_ascii_of_string t) = Some g ->
  Forall within_limit (not_none (Re.groups r g)).
Proof.
  intros Hlen Hs. apply search_within in Hs.
  rewrite length_list_ascii_of_string in Hs.
  apply Forall_forall. intros d Hd.
  apply not_none_captured in Hd as [i Hi]. specialize (Hs i d Hi).
  unfold within_limit, max_str_digits. lia.
Qed.







Lemma cat_ends_with_space r1 r2 :
  (forall w, Re.lang r2 w -> exists w', w = w' ++ [" "%char]) ->
  forall w, Re.lang (Re.Cat r1 r2) w -> exists w', w = w' ++ [" "%char].
Proof.
  intros Hlast w Hw. inversion Hw as [| | |? ? w1 w2 H1 H2| | | | |]; subst.
  destruct (Hlast _ H2) as [w' ->]. exists (w1 ++ w'). by rewrite app_assoc.
Qed.

(** Every word of the version pattern ends with a space. *)
Lemma version_pattern_ends_with_space :
  forall w, Re.lang version_pattern w -> exists w', w = w' ++ [" "%char].
Proof.
  unfold version_pattern. repeat apply cat_ends_with_space.
  intros w Hw. inversion Hw; subst. by exists [].
Qed.

(** C9: the pattern ends with a space, so a text that stops right after
    the version number does not match: [version] raises the parse error on
    ["graphviz version 2.44.1"], and reads (2, 44, 1) once a space
    follows. *)
Theorem version_needs_trailing_space
    (run_check : list arg -> run_kwargs -> M CompletedProcess) w :
  (forall word, Re.lang version_pattern word ->
                exists word', word = word' ++ [" "%char])
  /\ (forall proc w',
        run_check [DOT_BINARY; StrArg "-V"] version_kwargs w = (Ok proc, w') ->
        (stdout proc = "graphviz version 2.44.1" ->
         ~ Re.has_match version_pattern (list_ascii_of_string (stdout proc))
         /\ version run_check w
            = (Raise (RuntimeError
                        "cannot parse [PosixPath('dot'), '-V'] output: 'graphviz version 2.44.1'"),
               w'))
        /\ (stdout proc = "graphviz version 2.44.1 " ->
            version run_check w = (Ok [2; 44; 1]%Z, w'))).
Proof.
  split; [exact version_pattern_ends_with_space|].
  intros proc w' Hrun. rewrite version_unfold, Hrun. split.
  - intros ->. split; [|vm_compute; reflexivity].
    apply (search_None_iff _ _ version_pattern_groups). vm_compute. reflexivity.
  - intros ->. vm_compute. reflexivity.
Qed.

Lemma version_needs_trailing_space_witness :
  version (Running.run_check (os_prints "graphviz version 2.44.1"))
    initial_world
  = (Raise (RuntimeError
              "cannot parse [PosixPath('dot'), '-V'] output: 'graphviz version 2.44.1'"),
     log_call ([DOT_BINARY; StrArg "-V"], version_kwargs) initial_world).
Proof.
  refine (proj2 (proj1
            (proj2 (version_needs_trailing_space
                      (Running.run_check (os_prints "graphviz version 2.44.1"))
                      initial_world)
               {| args := [DOT_BINARY; StrArg "-V"]; returncode := 0;
                  stdout := "graphviz version 2.44.1"; stderr := EmptyString |}
               _ _) _)); reflexivity.
Defined.

(** * Further properties *)

(** ** Names in the capability sets *)

Lemma ENGINES_names x :
  x ∈ ENGINES -> has_sep x = false /\ contains_char ":" x = false.
Proof.
  unfold ENGINES. set_unfold.
  intros H. repeat (destruct H as [H|H]); subst; split; reflexivity.
Qed.

Lemma FORMATS_names x :
  x ∈ FORMATS -> has_sep x = false /\ contains_char ":" x = false.
Proof.
  unfold FORMATS. set_unfold.
  intros H. repeat (destruct H as [H|H]); subst; split; reflexivity.
Qed.

Lemma RENDERERS_names x :
  x ∈ RENDERERS -> has_sep x = false /\ contains_char ":" x = false.
Proof.
  unfold RENDERERS. set_unfold.
  intros H. repeat (destruct H as [H|H]); subst; split; reflexivity.
Qed.

Lemma FORMATTERS_names x :
  x ∈ FORMATTERS -> has_sep x = false /\ contains_char ":" x = false.
Proof.
  unfold FORMATTERS. set_unfold.
  intros H. repeat (destruct H as [H|H]); subst; split; reflexivity.
Qed.

(** ** Errors of [command] *)

(** X1: when the formatter comes with a renderer, [command] raises
    [ValueError] for the first value outside its set, in the order engine,
    format, renderer, formatter, and the message names that value. *)
Theorem command_reports_first_unknown engine format_ renderer formatter :
  (formatter <> None -> renderer <> None) ->
  (engine ∉ ENGINES ->
   command engine format_ renderer formatter
   = Raise (ValueError ("unknown engine: " +:+ repr engine)))
  /\ (engine ∈ ENGINES -> format_ ∉ FORMATS ->
      command engine format_ renderer formatter
      = Raise (ValueError ("unknown format: " +:+ repr format_)))
  /\ (engine ∈ ENGINES -> format_ ∈ FORMATS ->
      forall r, renderer = Some r -> r ∉ RENDERERS ->
      command engine format_ renderer formatter
      = Raise (ValueError ("unknown renderer: " +:+ repr r)))
  /\ (engine ∈ ENGINES -> format_ ∈ FORMATS ->
      forall r f, renderer = Some r -> r ∈ RENDERERS ->
      formatter = Some f -> f ∉ FORMATTERS ->
      command engine format_ renderer formatter
      = Raise (ValueError ("unknown formatter: " +:+ repr f))).
Proof.
  intros Hboth.
  assert (Hfirst : negb (is_None formatter) && is_None renderer = false).
  { destruct formatter, renderer; try reflexivity. exfalso. by apply Hboth. }
  unfold command. rewrite Hfirst. clear Hboth Hfirst.
  split; [intros He; by rewrite (is_in_false _ _ He)|].
  split; [intros He Hf; by rewrite (is_in_true _ _ He), (is_in_false _ _ Hf)|].
  split.
  - intros He Hf r -> Hr.
    rewrite (is_in_true _ _ He), (is_in_true _ _ Hf).
    unfold given_not_in. by rewrite (is_in_false _ _ Hr).
  - intros He Hf r f -> Hr -> Hfm.
    rewrite (is_in_true _ _ He), (is_in_true _ _ Hf).
    unfold given_not_in.
    by rewrite (is_in_true _ _ Hr), (is_in_false _ _ Hfm).
Qed.

Lemma command_reports_first_unknown_witness :
  command "dot" "docx" (Some "nope") None
  = Raise (ValueError "unknown format: 'docx'").
Proof.
  refine (proj1 (proj2 (command_reports_first_unknown
                          "dot" "docx" (Some "nope") None _)) _ _).
  - intros H. destruct (H eq_refl).
  - vm_compute. reflexivity.
  - vm_compute. intros H. discriminate H.
Defined.

(** ** The command line determines the request *)

Lemma append_cons c a b : String c a +:+ b = String c (a +:+ b).
Proof. reflexivity. Qed.

Lemma contains_char_append c a b :
  contains_char c (a +:+ String c b) = true.
Proof.
  induction a as [|d a IH].
  - change (contains_char c (String c b) = true).
    cbn [contains_char]. by rewrite Ascii.eqb_refl.
  - rewrite append_cons. cbn [contains_char]. rewrite IH. apply orb_true_r.
Qed.

(** A text without a colon is not a colon-joined pair. *)
Lemma colon_free_not_joined a a' rest :
  contains_char ":" a = false -> a <> a' +:+ ":" +:+ rest.
Proof.
  intros Ha ->. change (":" +:+ rest) with (String ":" rest) in Ha.
  by rewrite contains_char_append in Ha.
Qed.

(** Two colon-joined texts are equal only part by part, when the first
    parts have no colon. *)
Lemma colon_split_inj a a' rest rest' :
  contains_char ":" a = false -> contains_char ":" a' = false ->
  a +:+ ":" +:+ rest = a' +:+ ":" +:+ rest' ->
  a = a' /\ rest = rest'.
Proof.
  revert a'. induction a as [|c a IH]; intros [|c' a'] Ha Ha' H.
  - change (String ":" rest = String ":" rest') in H.
    injection H as ->. by split.
  - change (String ":" rest = String c' (a' +:+ ":" +:+ rest')) in H.
    injection H as <- _. cbn [contains_char] in Ha'.
    rewrite Ascii.eqb_refl in Ha'. discriminate Ha'.
  - change (String c (a +:+ ":" +:+ rest) = String ":" rest') in H.
    injection H as -> _. cbn [contains_char] in Ha.
    rewrite Ascii.eqb_refl in Ha. discriminate Ha.
  - rewrite !append_cons in H. injection H as -> H.
    cbn [contains_char] in Ha, Ha'.
    apply orb_false_iff in Ha as [_ Ha]. apply orb_false_iff in Ha' as [_ Ha'].
    destruct (IH a' Ha Ha' H) as [-> ->]. by split.
Qed.

Lemma command_valid_inv engine format_ renderer formatter cmd :
  command engine format_ renderer formatter = Ok cmd ->
  cmd = [DOT_BINARY; StrArg ("-K" +:+ engine);
         StrArg ("-T" +:+ join ":" (not_none [Some format_; renderer; formatter]))]
  /\ engine ∈ ENGINES /\ format_ ∈ FORMATS
  /\ absent_or_in renderer RENDERERS /\ absent_or_in formatter FORMATTERS
  /\ (formatter <> None -> renderer <> None).
Proof.
  intros Hcmd.
  assert (Hok : succeeds (command engine format_ renderer formatter))
    by (eexists; exact Hcmd).
  apply command_succeeds_iff in Hok as (He & Hf & Hr & Hfm & Hboth).
  rewrite (command_valid _ _ _ _ He Hf Hr Hfm Hboth) in Hcmd.
  injection Hcmd as <-. by repeat split.
Qed.

(** X2: two calls of [command] that return the same argument list were
    given the same engine, format, renderer and formatter: no member of a
    capability set has a colon in it, so the joined token can be read
    back. *)
Theorem command_line_determines_request
    engine format_ renderer formatter engine' format_' renderer' formatter' cmd :
  command engine format_ renderer formatter = Ok cmd ->
  command engine' format_' renderer' formatter' = Ok cmd ->
  engine = engine' /\ format_ = format_'
  /\ renderer = renderer' /\ formatter = formatter'.
Proof.
  intros H H'.
  apply command_valid_inv in H as (-> & _ & Hf & Hr & Hfm & Hboth).
  apply command_valid_inv in H' as (Heq & _ & Hf' & Hr' & Hfm' & Hboth').
  injection Heq as He Ht.
  apply FORMATS_names in Hf as [_ Hf]. apply FORMATS_names in Hf' as [_ Hf'].
  assert (Hrc : forall x, renderer = Some x -> contains_char ":" x = false)
    by (intros x Hx; exact (proj2 (RENDERERS_names _ (Hr x Hx)))).
  assert (Hrc' : forall x, renderer' = Some x -> contains_char ":" x = false)
    by (intros x Hx; exact (proj2 (RENDERERS_names _ (Hr' x Hx)))).
  clear Hr Hr' Hfm Hfm'.
  split; [exact He|]. clear He.
  destruct renderer as [r|], formatter as [fm|];
    try (exfalso; by apply Hboth);
    destruct renderer' as [r'|], formatter' as [fm'|];
    try (exfalso; by apply Hboth');
    clear Hboth Hboth';
    cbv beta iota delta [join not_none omap list_omap id] in Ht.
  - destruct (colon_split_inj _ _ _ _ Hf Hf' Ht) as [-> Ht2].
    destruct (colon_split_inj _ _ _ _ (Hrc r eq_refl) (Hrc' r' eq_refl) Ht2)
      as [-> ->].
    by repeat split.
  - destruct (colon_split_inj _ _ _ _ Hf Hf' Ht) as [_ Ht2].
    symmetry in Ht2.
    destruct (colon_free_not_joined _ _ _ (Hrc' r' eq_refl) Ht2).
  - symmetry in Ht. destruct (colon_free_not_joined _ _ _ Hf' Ht).
  - destruct (colon_split_inj _ _ _ _ Hf Hf' Ht) as [_ Ht2].
    destruct (colon_free_not_joined _ _ _ (Hrc r eq_refl) Ht2).
  - destruct (colon_split_inj _ _ _ _ Hf Hf' Ht) as [-> ->]. by repeat split.
  - symmetry in Ht. destruct (colon_free_not_joined _ _ _ Hf' Ht).
  - destruct (colon_free_not_joined _ _ _ Hf Ht).
  - destruct (colon_free_not_joined _ _ _ Hf Ht).
  - subst. by repeat split.
Qed.

Lemma command_line_determines_request_witness :
  "dot" = "dot" /\ "png" = "png" /\ Some "cairo" = Some "cairo"
  /\ @None string = None.
Proof.
  refine (command_line_determines_request
            "dot" "png" (Some "cairo") None "dot" "png" (Some "cairo") None
            [PathArg "dot"; StrArg "-Kdot"; StrArg "-Tpng:cairo"] _ _);
    vm_compute; reflexivity.
Defined.

(** ** Where [render] puts the file *)

Lemma has_sep_append a b : has_sep (a +:+ b) = has_sep a || has_sep b.
Proof.
  induction a as [|c a IH]; [reflexivity|].
  rewrite append_cons. cbn [has_sep]. rewrite IH. apply orb_assoc.
Qed.

Lemma cut_no_sep name :
  has_sep name = false -> PosixPath.cut_after_last_sep name = (EmptyString, name).
Proof.
  induction name as [|c name IH]; [reflexivity|].
  cbn [has_sep]. intros H. apply orb_false_iff in H as [Hc H].
  cbn [PosixPath.cut_after_last_sep]. rewrite (IH H).
  cbn [PosixPath.nonempty]. by rewrite Hc.
Qed.

Lemma cut_app d name :
  PosixPath.endswith_sep d = true -> has_sep name = false ->
  PosixPath.cut_after_last_sep (d +:+ name) = (d, name).
Proof.
  intros Hd Hname. induction d as [|c d IH]; [discriminate Hd|].
  rewrite append_cons. cbn [PosixPath.cut_after_last_sep].
  destruct d as [|c' d].
  - change (EmptyString +:+ name) with name. rewrite (cut_no_sep _ Hname).
    cbn [PosixPath.nonempty]. cbn [PosixPath.endswith_sep] in Hd.
    by rewrite Hd.
  - rewrite IH by exact Hd. reflexivity.
Qed.

Lemma all_sep_rstrip s :
  PosixPath.all_sep (PosixPath.rstrip_sep s) = PosixPath.all_sep s.
Proof.
  induction s as [|c s IH]; [reflexivity|].
  destruct (rstrip_sep_spec s) as (Hne & _ & _).
  cbn [PosixPath.rstrip_sep PosixPath.all_sep]. rewrite Hne, negb_involutive.
  destruct (PosixPath.all_sep s) eqn:Hall, (PosixPath.is_sep c) eqn:Hc;
    cbn [andb PosixPath.all_sep]; rewrite ?Hc, ?IH; reflexivity.
Qed.

Lemma all_sep_endswith d :
  PosixPath.nonempty d = true -> PosixPath.all_sep d = true ->
  PosixPath.endswith_sep d = true.
Proof.
  induction d as [|c d IH]; [intros H; discriminate H|].
  intros _ Hall. cbn [PosixPath.all_sep] in Hall.
  apply andb_true_iff in Hall as [Hc Hall].
  destruct d as [|c' d]; [exact Hc|]. by apply IH.
Qed.

Lemma all_sep_app_sep d :
  PosixPath.all_sep (d +:+ "/") = PosixPath.all_sep d.
Proof.
  induction d as [|c d IH]; [reflexivity|].
  rewrite append_cons. cbn [PosixPath.all_sep]. by rewrite IH.
Qed.

Lemma endswith_app_sep d : PosixPath.endswith_sep (d +:+ "/") = true.
Proof.
  induction d as [|c d IH]; [reflexivity|].
  rewrite append_cons. destruct d as [|c' d]; [reflexivity|].
  rewrite append_cons in *. exact IH.
Qed.

Lemma rstrip_app_sep d :
  PosixPath.nonempty d = true -> PosixPath.endswith_sep d = false ->
  PosixPath.rstrip_sep (d +:+ "/") = d.
Proof.
  induction d as [|c d IH]; [intros H; discriminate H|].
  intros _ Hend. rewrite append_cons. cbn [PosixPath.rstrip_sep].
  destruct d as [|c' d].
  - cbn [PosixPath.endswith_sep] in Hend.
    change (PosixPath.rstrip_sep (EmptyString +:+ "/")) with EmptyString.
    cbn [PosixPath.nonempty negb andb]. by rewrite Hend.
  - rewrite IH by (reflexivity || exact Hend). reflexivity.
Qed.

(** The directory part that [split] returns is empty, or all separators,
    or ends with something other than a separator. *)
Lemma dirname_shape p :
  PosixPath.nonempty (fst (PosixPath.split p)) = true ->
  PosixPath.all_sep (fst (PosixPath.split p)) = true
  \/ (PosixPath.all_sep (fst (PosixPath.split p)) = false
      /\ PosixPath.endswith_sep (fst (PosixPath.split p)) = false).
Proof.
  unfold PosixPath.split.
  destruct (PosixPath.cut_after_last_sep p) as [h t]. cbn [fst].
  destruct (rstrip_sep_spec h) as (_ & Hend & _).
  destruct (PosixPath.nonempty h) eqn:Hh, (PosixPath.all_sep h) eqn:Hall;
    cbn [andb negb]; intros Hne.
  - left. exact Hall.
  - right. by rewrite all_sep_rstrip, Hall.
  - left. exact Hall.
  - rewrite Hh in Hne. discriminate Hne.
Qed.

(** Joining a name without separator onto the directory part of a path
    and splitting again gives the directory part and the name back. *)
Lemma split_join_dirname p name :
  has_sep name = false ->
  PosixPath.split (PosixPath.join (fst (PosixPath.split p)) name)
  = (fst (PosixPath.split p), name).
Proof.
  intros Hname. set (d := fst (PosixPath.split p)).
  pose proof (dirname_shape p) as Hshape. fold d in Hshape.
  pose proof (no_sep_startswith _ Hname) as Hstart.
  unfold PosixPath.join. rewrite Hstart.
  destruct (PosixPath.nonempty d) eqn:Hd; cbn [negb orb].
  - destruct (Hshape eq_refl) as [Hall|[Hall Hend]].
    + rewrite (all_sep_endswith _ Hd Hall). unfold PosixPath.split.
      rewrite (cut_app _ _ (all_sep_endswith _ Hd Hall) Hname).
      by rewrite Hd, Hall.
    + rewrite Hend. unfold PosixPath.split.
      change (d +:+ String PosixPath.sep EmptyString +:+ name)
        with (d +:+ "/" +:+ name).
      rewrite <- (append_assoc d "/" name).
      rewrite (cut_app _ _ (endswith_app_sep d) Hname).
      rewrite all_sep_app_sep, Hall.
      assert (Hne : PosixPath.nonempty (d +:+ "/") = true)
        by (destruct d; [discriminate Hd | reflexivity]).
      rewrite Hne. cbn [andb negb]. by rewrite rstrip_app_sep.
  - apply nonempty_false in Hd. rewrite Hd.
    change (EmptyString +:+ name) with name.
    unfold PosixPath.split. by rewrite (cut_no_sep _ Hname).
Qed.

Lemma render_returns
    (run_check : list arg -> run_kwargs -> M CompletedProcess)
    engine format_ filepath renderer formatter quiet w p w' :
  render run_check engine format_ filepath renderer formatter quiet w = (Ok p, w') ->
  succeeds (command engine format_ renderer formatter)
  /\ p = (let name := snd (PosixPath.split filepath) +:+ "."
                      +:+ join "." (not_none [formatter; renderer; Some format_]) in
          if PosixPath.nonempty (fst (PosixPath.split filepath))
          then PosixPath.join (fst (PosixPath.split filepath)) name
          else name).
Proof.
  unfold render. destruct (PosixPath.split filepath) as [d n]. cbn [fst snd].
  destruct (command engine format_ renderer formatter) as [cmd|e];
    [|intros H; discriminate H].
  unfold lift, mbind, M_bind, mret, M_ret.
  destruct (PosixPath.nonempty d).
  - destruct (run_check _ _ w) as [[proc|e] w1]; [|intros H; discriminate H].
    intros [= <- <-]. split; [by eexists | reflexivity].
  - destruct (run_check _ _ w) as [[proc|e] w1]; [|intros H; discriminate H].
    intros [= <- <-]. split; [by eexists | reflexivity].
Qed.

(** X3: the path that [render] returns splits into the directory part of
    the input path and the input's file name with ['.'] and the suffix of
    formatter, renderer and format appended; so the file is reported next
    to its source, and the path ends with ['.'] and the format. *)
Theorem render_path_splits_back
    (run_check : list arg -> run_kwargs -> M CompletedProcess)
    engine format_ filepath renderer formatter quiet w p w' :
  render run_check engine format_ filepath renderer formatter quiet w = (Ok p, w') ->
  PosixPath.split p
  = (fst (PosixPath.split filepath),
     snd (PosixPath.split filepath) +:+ "."
     +:+ join "." (not_none [formatter; renderer; Some format_]))
  /\ exists stem, p = stem +:+ "." +:+ format_.
Proof.
  intros Hrender. apply render_returns in Hrender as [Hok ->].
  apply command_succeeds_iff in Hok as (_ & Hf & Hr & Hfm & Hboth).
  destruct (split_spec filepath) as (Htail & _ & Hnodir).
  set (d := fst (PosixPath.split filepath)) in *.
  set (n := snd (PosixPath.split filepath)) in *.
  apply FORMATS_names in Hf as [Hf _].
  assert (Hsuffix : exists pre,
             n +:+ "." +:+ join "." (not_none [formatter; renderer; Some format_])
             = (n +:+ pre) +:+ "." +:+ format_
             /\ has_sep (n +:+ pre) = false).
  { destruct renderer as [r|], formatter as [fm|];
      try (exfalso; by apply Hboth).
    - exists ("." +:+ fm +:+ "." +:+ r).
      split; [cbv beta iota delta [join not_none omap list_omap id];
              by rewrite !append_assoc|].
      rewrite !has_sep_append, Htail.
      rewrite (proj1 (RENDERERS_names _ (Hr r eq_refl))).
      by rewrite (proj1 (FORMATTERS_names _ (Hfm fm eq_refl))).
    - exists ("." +:+ r).
      split; [cbv beta iota delta [join not_none omap list_omap id];
              by rewrite !append_assoc|].
      rewrite !has_sep_append, Htail.
      by rewrite (proj1 (RENDERERS_names _ (Hr r eq_refl))).
    - exists EmptyString.
      split; [cbv beta iota delta [join not_none omap list_omap id];
              by rewrite append_empty_r|].
      by rewrite append_empty_r. }
  destruct Hsuffix as (pre & Hname & Hpre). cbv zeta. rewrite Hname.
  assert (Hfull : has_sep ((n +:+ pre) +:+ "." +:+ format_) = false)
    by (rewrite has_sep_append, Hpre, has_sep_append, Hf; reflexivity).
  destruct (PosixPath.nonempty d) eqn:Hd.
  - split; [by apply split_join_dirname|].
    exists (PosixPath.join d (n +:+ pre)).
    apply join_append; by apply no_sep_startswith.
  - split; [|by eexists].
    pose proof (split_join_dirname filepath _ Hfull) as Hsplit. fold d in Hsplit.
    apply nonempty_false in Hd. rewrite Hd in *.
    unfold PosixPath.join in Hsplit.
    rewrite (no_sep_startswith _ Hfull) in Hsplit. exact Hsplit.
Qed.

Lemma render_path_splits_back_witness :
  PosixPath.split "doc/graph.gv.cairo.pdf" = ("doc", "graph.gv.cairo.pdf").
Proof.
  refine (proj1 (render_path_splits_back
                   (Running.run_check (os_prints EmptyString))
                   "dot" "pdf" "doc//graph.gv" (Some "cairo") None false
                   initial_world "doc/graph.gv.cairo.pdf" _ _)).
  vm_compute. reflexivity.
Defined.

(** ** Assignments to a [Graphviz] object *)

Lemma dict_of_set_dict_ne self o d w :
  o <> self -> Graphviz.dict_of o (Graphviz.set_dict self d w) = Graphviz.dict_of o w.
Proof.
  intros Hne. unfold Graphviz.dict_of, Graphviz.set_dict. cbn [objects].
  by rewrite lookup_insert_ne.
Qed.

Lemma set_dict_set_dict self d1 d2 w :
  Graphviz.set_dict self d2 (Graphviz.set_dict self d1 w) = Graphviz.set_dict self d2 w.
Proof. unfold Graphviz.set_dict. cbn [calls cls_engine cls_format objects]. by rewrite insert_insert_eq. Qed.

(** The four properties are read from the object's attributes and the two
    defaults. *)
Lemma same_dict_same_properties o w w1 :
  Graphviz.dict_of o w1 = Graphviz.dict_of o w ->
  cls_engine w1 = cls_engine w -> cls_format w1 = cls_format w ->
  same_properties o w w1.
Proof.
  intros Hd He Hf.
  unfold same_properties, Graphviz.engine, Graphviz.format,
    Graphviz.renderer, Graphviz.formatter.
  by rewrite Hd, He, Hf.
Qed.

Lemma validated_setattr_ok self name x (S : gset string) msg w :
  x ∈ S ->
  (lift (raise_if (negb (is_in x S)) (ValueError msg));;
   Graphviz.setattr self name x) w
  = (Ok tt, Graphviz.set_dict self (<[name := x]> (Graphviz.dict_of self w)) w).
Proof. intros Hx. rewrite validated_setattr. by rewrite (is_in_true _ _ Hx). Qed.

Lemma validated_setattr_err self name x (S : gset string) msg w :
  x ∉ S ->
  (lift (raise_if (negb (is_in x S)) (ValueError msg));;
   Graphviz.setattr self name x) w
  = (Raise (ValueError msg), w).
Proof. intros Hx. rewrite validated_setattr. by rewrite (is_in_false _ _ Hx). Qed.

(** What a validated assignment leaves alone. *)
Lemma validated_setattr_frame self name x (S : gset string) msg w :
  let w1 := snd ((lift (raise_if (negb (is_in x S)) (ValueError msg));;
                  Graphviz.setattr self name x) w) in
  same_defaults w w1
  /\ (forall o, o <> self -> Graphviz.dict_of o w1 = Graphviz.dict_of o w)
  /\ (forall name', name' <> name ->
        Graphviz.dict_of self w1 !! name' = Graphviz.dict_of self w !! name').
Proof.
  cbv zeta. rewrite validated_setattr.
  destruct (is_in x S); cbn [snd]; [|by repeat split].
  split; [by repeat split|]. split.
  - intros o Hne. by apply dict_of_set_dict_ne.
  - intros name' Hne. rewrite dict_of_set_dict. by rewrite lookup_insert_ne.
Qed.

Lemma dict_pop_frame self name w :
  let w1 := snd (Graphviz.dict_pop self name w) in
  same_defaults w w1
  /\ (forall o, o <> self -> Graphviz.dict_of o w1 = Graphviz.dict_of o w)
  /\ (forall name', name' <> name ->
        Graphviz.dict_of self w1 !! name' = Graphviz.dict_of self w !! name').
Proof.
  cbv zeta. unfold Graphviz.dict_pop. cbn [snd].
  split; [by repeat split|]. split.
  - intros o Hne. by apply dict_of_set_dict_ne.
  - intros name' Hne. rewrite dict_of_set_dict. by rewrite lookup_delete_ne.
Qed.

(** The frame of an assignment to the attribute [name], at the level of
    the properties. *)
Lemma attribute_frame self name w w1 :
  same_defaults w w1 ->
  (forall o, o <> self -> Graphviz.dict_of o w1 = Graphviz.dict_of o w) ->
  (forall name', name' <> name ->
     Graphviz.dict_of self w1 !! name' = Graphviz.dict_of self w !! name') ->
  (name <> "_engine" -> Graphviz.engine self w1 = Graphviz.engine self w)
  /\ (name <> "_format" -> Graphviz.format self w1 = Graphviz.format self w)
  /\ (name <> "_renderer" -> Graphviz.renderer self w1 = Graphviz.renderer self w)
  /\ (name <> "_formatter" -> Graphviz.formatter self w1 = Graphviz.formatter self w)
  /\ (forall o, o <> self -> same_properties o w w1).
Proof.
  intros (He & Hf & _) Hother Hself.
  unfold Graphviz.engine, Graphviz.format, Graphviz.renderer, Graphviz.formatter.
  rewrite He, Hf.
  split; [intros Hne; rewrite Hself by (intros H; by apply Hne); reflexivity|].
  split; [intros Hne; rewrite Hself by (intros H; by apply Hne); reflexivity|].
  split; [intros Hne; rewrite Hself by (intros H; by apply Hne); reflexivity|].
  split; [intros Hne; rewrite Hself by (intros H; by apply Hne); reflexivity|].
  intros o Hne. apply same_dict_same_properties; [by apply Hother | exact He | exact Hf].
Qed.

(** X4: an assignment to one property of an object, whether it is accepted
    or refused, changes no other property of that object, no property of
    any other object, and neither default. *)
Theorem assignment_changes_one_property self w :
  (forall v,
     let w1 := snd (Graphviz.engine_setter self v w) in
     same_defaults w w1
     /\ Graphviz.format self w1 = Graphviz.format self w
     /\ Graphviz.renderer self w1 = Graphviz.renderer self w
     /\ Graphviz.formatter self w1 = Graphviz.formatter self w
     /\ forall o, o <> self -> same_properties o w w1)
  /\ (forall v,
        let w1 := snd (Graphviz.format_setter self v w) in
        same_defaults w w1
        /\ Graphviz.engine self w1 = Graphviz.engine self w
        /\ Graphviz.renderer self w1 = Graphviz.renderer self w
        /\ Graphviz.formatter self w1 = Graphviz.formatter self w
        /\ forall o, o <> self -> same_properties o w w1)
  /\ (forall v,
        let w1 := snd (Graphviz.renderer_setter self v w) in
        same_defaults w w1
        /\ Graphviz.engine self w1 = Graphviz.engine self w
        /\ Graphviz.format self w1 = Graphviz.format self w
        /\ Graphviz.formatter self w1 = Graphviz.formatter self w
        /\ forall o, o <> self -> same_properties o w w1)
  /\ (forall v,
        let w1 := snd (Graphviz.formatter_setter self v w) in
        same_defaults w w1
        /\ Graphviz.engine self w1 = Graphviz.engine self w
        /\ Graphviz.format self w1 = Graphviz.format self w
        /\ Graphviz.renderer self w1 = Graphviz.renderer self w
        /\ forall o, o <> self -> same_properties o w w1).
Proof.
  split; [|split; [|split]]; intros v; cbv zeta.
  - destruct (validated_setattr_frame self "_engine" (lower v) ENGINES
                ("unknown engine: " +:+ repr (lower v)) w) as (Hd & Ho & Hs).
    destruct (attribute_frame self "_engine" w _ Hd Ho Hs)
      as (_ & Hf & Hr & Hfm & Hother).
    split; [exact Hd|]. split; [by apply Hf|]. split; [by apply Hr|].
    split; [by apply Hfm | exact Hother].
  - destruct (validated_setattr_frame self "_format" (lower v) FORMATS
                ("unknown format: " +:+ repr (lower v)) w) as (Hd & Ho & Hs).
    destruct (attribute_frame self "_format" w _ Hd Ho Hs)
      as (He & _ & Hr & Hfm & Hother).
    split; [exact Hd|]. split; [by apply He|]. split; [by apply Hr|].
    split; [by apply Hfm | exact Hother].
  - assert (Hframe :
      let w1 := snd (Graphviz.renderer_setter self v w) in
      same_defaults w w1
      /\ (forall o, o <> self -> Graphviz.dict_of o w1 = Graphviz.dict_of o w)
      /\ (forall name', name' <> "_renderer" ->
            Graphviz.dict_of self w1 !! name' = Graphviz.dict_of self w !! name')).
    { destruct v as [r|]; [apply validated_setattr_frame | apply dict_pop_frame]. }
    destruct Hframe as (Hd & Ho & Hs).
    destruct (attribute_frame self "_renderer" w _ Hd Ho Hs)
      as (He & Hf & _ & Hfm & Hother).
    split; [exact Hd|]. split; [by apply He|]. split; [by apply Hf|].
    split; [by apply Hfm | exact Hother].
  - assert (Hframe :
      let w1 := snd (Graphviz.formatter_setter self v w) in
      same_defaults w w1
      /\ (forall o, o <> self -> Graphviz.dict_of o w1 = Graphviz.dict_of o w)
      /\ (forall name', name' <> "_formatter" ->
            Graphviz.dict_of self w1 !! name' = Graphviz.dict_of self w !! name')).
    { destruct v as [f|]; [apply validated_setattr_frame | apply dict_pop_frame]. }
    destruct Hframe as (Hd & Ho & Hs).
    destruct (attribute_frame self "_formatter" w _ Hd Ho Hs)
      as (He & Hf & Hr & _ & Hother).
    split; [exact Hd|]. split; [by apply He|]. split; [by apply Hf|].
    split; [by apply Hr | exact Hother].
Qed.

Lemma assignment_changes_one_property_witness :
  same_properties 1 initial_world
    (snd (Graphviz.engine_setter 0 "NEATO" initial_world)).
Proof.
  refine (proj2 (proj2 (proj2 (proj2
            (proj1 (assignment_changes_one_property 0 initial_world)
               "NEATO")))) 1 _).
  intros H. discriminate H.
Defined.

(** ** Construction *)

Lemma init_dict_lookup format engine renderer formatter :
  init_dict format engine renderer formatter ∅ !! "_format" = lower <$> format
  /\ init_dict format engine renderer formatter ∅ !! "_engine" = lower <$> engine
  /\ init_dict format engine renderer formatter ∅ !! "_renderer" = lower <$> renderer
  /\ init_dict format engine renderer formatter ∅ !! "_formatter" = lower <$> formatter.
Proof.
  unfold init_dict.
  destruct format, engine, renderer, formatter; cbn [fmap option_fmap option_map];
    repeat split;
    repeat first
      [ rewrite lookup_insert_eq
      | rewrite lookup_delete_eq
      | rewrite lookup_insert_ne by (intros H; discriminate H)
      | rewrite lookup_delete_ne by (intros H; discriminate H)
      | rewrite lookup_empty ];
    reflexivity.
Qed.

(** [__init__] with acceptable arguments stores them, in lowercase. *)
Lemma init_ok self format engine renderer formatter w :
  absent_or_lower_in format FORMATS ->
  absent_or_lower_in engine ENGINES ->
  absent_or_lower_in renderer RENDERERS ->
  absent_or_lower_in formatter FORMATTERS ->
  Graphviz.__init__ self format engine renderer formatter w
  = (Ok tt,
     Graphviz.set_dict self
       (init_dict format engine renderer formatter (Graphviz.dict_of self w)) w).
Proof.
  intros Hf He Hr Hfm. unfold Graphviz.__init__, init_dict.
  unfold mbind at 1, M_bind at 1.
  assert (H1 : exists w1,
    match format with
    | Some format0 => Graphviz.format_setter self format0
    | None => mret tt
    end w = (Ok tt, w1)
    /\ forall d, Graphviz.set_dict self d w1 = Graphviz.set_dict self d w
    /\ Graphviz.dict_of self w1
       = match format with
         | Some x => <["_format" := lower x]> (Graphviz.dict_of self w)
         | None => Graphviz.dict_of self w
         end).
  { destruct format as [f|].
    - eexists. split.
      + unfold Graphviz.format_setter.
        apply validated_setattr_ok. by apply Hf.
      + intros d. split; [apply set_dict_set_dict | apply dict_of_set_dict].
    - exists w. by repeat split. }
  destruct H1 as (w1 & -> & H1). unfold mbind at 1, M_bind at 1.
  assert (H2 : exists w2,
    match engine with
    | Some engine0 => Graphviz.engine_setter self engine0
    | None => mret tt
    end w1 = (Ok tt, w2)
    /\ forall d, Graphviz.set_dict self d w2 = Graphviz.set_dict self d w1
    /\ Graphviz.dict_of self w2
       = match engine with
         | Some x => <["_engine" := lower x]> (Graphviz.dict_of self w1)
         | None => Graphviz.dict_of self w1
         end).
  { destruct engine as [e|].
    - eexists. split.
      + unfold Graphviz.engine_setter.
        apply validated_setattr_ok. by apply He.
      + intros d. split; [apply set_dict_set_dict | apply dict_of_set_dict].
    - exists w1. by repeat split. }
  destruct H2 as (w2 & -> & H2). unfold mbind at 1, M_bind at 1.
  assert (H3 :
    Graphviz.renderer_setter self renderer w2
    = (Ok tt, Graphviz.set_dict self
                match renderer with
                | Some x => <["_renderer" := lower x]> (Graphviz.dict_of self w2)
                | None => delete "_renderer" (Graphviz.dict_of self w2)
                end w2)).
  { destruct renderer as [r|]; [|reflexivity].
    unfold Graphviz.renderer_setter. apply validated_setattr_ok. by apply Hr. }
  rewrite H3.
  assert (H4 : forall w3,
    Graphviz.formatter_setter self formatter w3
    = (Ok tt, Graphviz.set_dict self
                match formatter with
                | Some x => <["_formatter" := lower x]> (Graphviz.dict_of self w3)
                | None => delete "_formatter" (Graphviz.dict_of self w3)
                end w3)).
  { intros w3. destruct formatter as [fm|]; [|reflexivity].
    unfold Graphviz.formatter_setter. apply validated_setattr_ok. by apply Hfm. }
  rewrite H4. f_equal.
  rewrite set_dict_set_dict, dict_of_set_dict.
  rewrite (proj1 (H2 _)), (proj1 (H1 _)).
  by rewrite (proj2 (H2 ∅)), (proj2 (H1 ∅)).
Qed.

Lemma new_ok format engine renderer formatter w :
  absent_or_lower_in format FORMATS ->
  absent_or_lower_in engine ENGINES ->
  absent_or_lower_in renderer RENDERERS ->
  absent_or_lower_in formatter FORMATTERS ->
  Graphviz.new format engine renderer formatter w
  = (Ok (fresh (dom (objects w))),
     Graphviz.set_dict (fresh (dom (objects w)))
       (init_dict format engine renderer formatter ∅) w).
Proof.
  intros Hf He Hr Hfm. unfold Graphviz.new, mbind, M_bind.
  rewrite (init_ok _ _ _ _ _ _ Hf He Hr Hfm).
  by rewrite set_dict_set_dict, dict_of_set_dict.
Qed.

(** X5: the constructor, given values whose lowercase forms are in the
    capability sets, returns an object that did not exist before; its
    properties are the given values in lowercase, the defaults standing in
    for an absent engine or format and [None] for an absent renderer or
    formatter; the objects that existed and the defaults are as before. *)
Theorem new_object_configured format engine renderer formatter w :
  absent_or_lower_in format FORMATS ->
  absent_or_lower_in engine ENGINES ->
  absent_or_lower_in renderer RENDERERS ->
  absent_or_lower_in formatter FORMATTERS ->
  exists obj w',
    Graphviz.new format engine renderer formatter w = (Ok obj, w')
    /\ objects w !! obj = None
    /\ Graphviz.format obj w' = default (cls_format w) (lower <$> format)
    /\ Graphviz.engine obj w' = default (cls_engine w) (lower <$> engine)
    /\ Graphviz.renderer obj w' = lower <$> renderer
    /\ Graphviz.formatter obj w' = lower <$> formatter
    /\ same_defaults w w'
    /\ forall o, o <> obj -> same_properties o w w'.
Proof.
  intros Hf He Hr Hfm. eexists _, _.
  split; [by apply new_ok|].
  destruct (init_dict_lookup format engine renderer formatter)
    as (Lf & Le & Lr & Lfm).
  split; [apply not_elem_of_dom, is_fresh|].
  unfold Graphviz.format, Graphviz.engine, Graphviz.renderer, Graphviz.formatter.
  rewrite dict_of_set_dict, Lf, Le, Lr, Lfm.
  split; [reflexivity|]. split; [reflexivity|].
  split; [by destruct renderer|]. split; [by destruct formatter|].
  split; [by repeat split|].
  intros o Hne. apply same_dict_same_properties; [|reflexivity|reflexivity].
  by apply dict_of_set_dict_ne.
Qed.

Lemma new_object_configured_witness :
  exists obj w',
    Graphviz.new (Some "PNG") None (Some "Cairo") None initial_world = (Ok obj, w')
    /\ Graphviz.format obj w' = "png"
    /\ Graphviz.engine obj w' = "dot"
    /\ Graphviz.renderer obj w' = Some "cairo"
    /\ Graphviz.formatter obj w' = None.
Proof.
  destruct (new_object_configured (Some "PNG") None (Some "Cairo") None
              initial_world)
    as (obj & w' & Hnew & _ & Hf & He & Hr & Hfm & _).
  - intros x [= <-]. vm_compute. reflexivity.
  - intros x [=].
  - intros x [= <-]. vm_compute. reflexivity.
  - intros x [=].
  - exists obj, w'. by repeat split.
Defined.

(** X6: the constructor checks format, then engine, then renderer, then
    formatter, and raises [ValueError] for the first whose lowercase form
    is outside its set, naming that lowercase form. *)
Theorem new_reports_first_unknown format engine renderer formatter w :
  (forall f, format = Some f -> lower f ∉ FORMATS ->
     fst (Graphviz.new format engine renderer formatter w)
     = Raise (ValueError ("unknown format: " +:+ repr (lower f))))
  /\ (absent_or_lower_in format FORMATS ->
      forall e, engine = Some e -> lower e ∉ ENGINES ->
      fst (Graphviz.new format engine renderer formatter w)
      = Raise (ValueError ("unknown engine: " +:+ repr (lower e))))
  /\ (absent_or_lower_in format FORMATS ->
      absent_or_lower_in engine ENGINES ->
      forall r, renderer = Some r -> lower r ∉ RENDERERS ->
      fst (Graphviz.new format engine renderer formatter w)
      = Raise (ValueError ("unknown renderer: " +:+ repr (lower r))))
  /\ (absent_or_lower_in format FORMATS ->
      absent_or_lower_in engine ENGINES ->
      absent_or_lower_in renderer RENDERERS ->
      forall f, formatter = Some f -> lower f ∉ FORMATTERS ->
      fst (Graphviz.new format engine renderer formatter w)
      = Raise (ValueError ("unknown formatter: " +:+ repr (lower f)))).
Proof.
  set (self := fresh (dom (objects w))).
  set (w0 := Graphviz.set_dict self ∅ w).
  assert (Hnew : forall r,
    Graphviz.__init__ self format engine renderer formatter w0 = r ->
    fst (Graphviz.new format engine renderer formatter w)
    = match fst r with Ok _ => Ok self | Raise e => Raise e end).
  { intros r <-. unfold Graphviz.new, mbind at 1, M_bind at 1.
    fold self. fold w0.
    by destruct (Graphviz.__init__ self format engine renderer formatter w0)
      as [[[]|e] w1]. }
  assert (Hskip : forall (v : option string) (set : string -> M unit) S wa,
    (forall x wb, lower x ∈ S -> exists wc, set x wb = (Ok tt, wc)) ->
    absent_or_lower_in v S ->
    exists wc, match v with Some x => set x | None => mret tt end wa
               = (Ok tt, wc)).
  { intros v set S wa Hset Hv. destruct v as [x|].
    - apply Hset. by apply Hv.
    - by exists wa. }
  assert (Hfs : forall x wb, lower x ∈ FORMATS ->
            exists wc, Graphviz.format_setter self x wb = (Ok tt, wc)).
  { intros x wb Hx. eexists. unfold Graphviz.format_setter.
    by apply validated_setattr_ok. }
  assert (Hes : forall x wb, lower x ∈ ENGINES ->
            exists wc, Graphviz.engine_setter self x wb = (Ok tt, wc)).
  { intros x wb Hx. eexists. unfold Graphviz.engine_setter.
    by apply validated_setattr_ok. }
  assert (Hrs : forall wb, absent_or_lower_in renderer RENDERERS ->
            exists wc, Graphviz.renderer_setter self renderer wb = (Ok tt, wc)).
  { intros wb Hr. destruct renderer as [r|]; eexists; [|reflexivity].
    unfold Graphviz.renderer_setter. apply validated_setattr_ok. by apply Hr. }
  split; [|split; [|split]].
  - intros f -> Hf. erewrite Hnew; [|reflexivity].
    unfold Graphviz.__init__, Graphviz.format_setter, mbind at 1, M_bind at 1.
    by rewrite validated_setattr_err.
  - intros Hf e -> He. erewrite Hnew; [|reflexivity].
    unfold Graphviz.__init__, mbind at 1, M_bind at 1.
    destruct (Hskip format _ FORMATS w0 Hfs Hf) as [w1 ->].
    unfold Graphviz.engine_setter, mbind at 1, M_bind at 1.
    by rewrite validated_setattr_err.
  - intros Hf He r -> Hr. erewrite Hnew; [|reflexivity].
    unfold Graphviz.__init__, mbind at 1, M_bind at 1.
    destruct (Hskip format _ FORMATS w0 Hfs Hf) as [w1 ->].
    unfold mbind at 1, M_bind at 1.
    destruct (Hskip engine _ ENGINES w1 Hes He) as [w2 ->].
    unfold Graphviz.renderer_setter, mbind at 1, M_bind at 1.
    by rewrite validated_setattr_err.
  - intros Hf He Hr f -> Hfm. erewrite Hnew; [|reflexivity].
    unfold Graphviz.__init__, mbind at 1, M_bind at 1.
    destruct (Hskip format _ FORMATS w0 Hfs Hf) as [w1 ->].
    unfold mbind at 1, M_bind at 1.
    destruct (Hskip engine _ ENGINES w1 Hes He) as [w2 ->].
    unfold mbind at 1, M_bind at 1.
    destruct (Hrs w2 Hr) as [w3 ->].
    unfold Graphviz.formatter_setter.
    by rewrite validated_setattr_err.
Qed.

Lemma new_reports_first_unknown_witness :
  fst (Graphviz.new (Some "png") (Some "NOPE") (Some "zzz") None initial_world)
  = Raise (ValueError "unknown engine: 'nope'").
Proof.
  refine (proj1 (proj2 (new_reports_first_unknown
                          (Some "png") (Some "NOPE") (Some "zzz") None
                          initial_world)) _ "NOPE" eq_refl _).
  - intros x [= <-]. vm_compute. reflexivity.
  - vm_compute. intros H. discriminate H.
Defined.

(** ** Defaults *)

(** X7: setting a default and then setting back the value that the first
    call returned restores the state exactly; the second call returns the
    value that was in between. *)
Theorem set_default_then_restore engine format_ w :
  reachable w ->
  engine ∈ ENGINES ->
  format_ ∈ FORMATS ->
  (old ← set_default_engine engine; set_default_engine old) w = (Ok engine, w)
  /\ (old ← set_default_format format_; set_default_format old) w
     = (Ok format_, w).
Proof.
  intros Hreach He Hf.
  destruct (reachable_good w Hreach) as (Hce & Hcf & _). clear Hreach.
  destruct w as [c e f o]. cbn [cls_engine cls_format] in Hce, Hcf.
  unfold set_default_engine, set_default_format, lift, raise_if, mbind, M_bind,
    get_cls_engine, put_cls_engine, get_cls_format, put_cls_format, mret, M_ret.
  rewrite (is_in_true _ _ He), (is_in_true _ _ Hf).
  cbn [negb cls_engine cls_format calls objects].
  rewrite (is_in_true _ _ Hce), (is_in_true _ _ Hcf).
  split; reflexivity.
Qed.

Lemma set_default_then_restore_witness :
  (old ← set_default_engine "neato"; set_default_engine old) initial_world
  = (Ok "neato", initial_world).
Proof.
  refine (proj1 (set_default_then_restore "neato" "svg" initial_world _ _ _)).
  - apply rtc_refl.
  - vm_compute. reflexivity.
  - vm_compute. reflexivity.
Defined.

(** X8: a call of [set_default_engine], accepted or refused, changes no
    attribute of any object: every object keeps its format, renderer and
    formatter, and an object that was given an engine of its own keeps that
    engine; the default format is unchanged.  [set_default_format] is the
    same with engine and format exchanged. *)
Theorem set_default_leaves_objects v w o :
  (let w1 := snd (set_default_engine v w) in
   Graphviz.dict_of o w1 = Graphviz.dict_of o w
   /\ cls_format w1 = cls_format w
   /\ Graphviz.format o w1 = Graphviz.format o w
   /\ Graphviz.renderer o w1 = Graphviz.renderer o w
   /\ Graphviz.formatter o w1 = Graphviz.formatter o w
   /\ (is_Some (Graphviz.dict_of o w !! "_engine") ->
       Graphviz.engine o w1 = Graphviz.engine o w))
  /\ (let w1 := snd (set_default_format v w) in
      Graphviz.dict_of o w1 = Graphviz.dict_of o w
      /\ cls_engine w1 = cls_engine w
      /\ Graphviz.engine o w1 = Graphviz.engine o w
      /\ Graphviz.renderer o w1 = Graphviz.renderer o w
      /\ Graphviz.formatter o w1 = Graphviz.formatter o w
      /\ (is_Some (Graphviz.dict_of o w !! "_format") ->
          Graphviz.format o w1 = Graphviz.format o w)).
Proof.
  cbv zeta.
  unfold set_default_engine, set_default_format, lift, raise_if, mbind, M_bind,
    get_cls_engine, put_cls_engine, get_cls_format, put_cls_format, mret, M_ret.
  split.
  - destruct (is_in v ENGINES); cbn [negb snd]; [|by repeat split].
    unfold Graphviz.engine, Graphviz.format, Graphviz.renderer,
      Graphviz.formatter, Graphviz.dict_of. cbn [objects cls_format cls_engine].
    repeat split. intros [x ->]. reflexivity.
  - destruct (is_in v FORMATS); cbn [negb snd]; [|by repeat split].
    unfold Graphviz.engine, Graphviz.format, Graphviz.renderer,
      Graphviz.formatter, Graphviz.dict_of. cbn [objects cls_format cls_engine].
    repeat split. intros [x ->]. reflexivity.
Qed.

Lemma set_default_leaves_objects_witness :
  Graphviz.engine 0
    (snd (set_default_engine "fdp"
            (snd (Graphviz.new None (Some "neato") None None initial_world))))
  = "neato".
Proof.
  refine (proj2 (proj2 (proj2 (proj2 (proj2
            (proj1 (set_default_leaves_objects "fdp"
                      (snd (Graphviz.new None (Some "neato") None None
                              initial_world)) 0)))))) _).
  vm_compute. by eexists.
Defined.

(** ** An object's settings as a request *)

(** X9: in every reachable state, the engine of an object together with
    the format, renderer and formatter that [_get_backend_kwargs] selects
    (an explicit value from a capability set, or else the object's own)
    never makes [command] raise [ValueError]: [command] returns a command
    when the formatter comes with a renderer, and raises
    [RequiredArgumentError] otherwise. *)
Theorem object_request_is_known w self format_ renderer_ formatter_ :
  reachable w ->
  absent_or_in format_ FORMATS ->
  absent_or_in renderer_ RENDERERS ->
  absent_or_in formatter_ FORMATTERS ->
  let kw := Graphviz._get_backend_kwargs self format_ renderer_ formatter_ w in
  let result := command (Graphviz.engine self w) kw.1.1 kw.1.2 kw.2 in
  ((kw.2 <> None -> kw.1.2 <> None) -> succeeds result)
  /\ (kw.2 <> None /\ kw.1.2 = None ->
      result = Raise (RequiredArgumentError "formatter given without renderer"))
  /\ forall msg, result <> Raise (ValueError msg).
Proof.
  intros Hreach Hf Hr Hfm. cbv zeta.
  destruct (good_well_configured self w (reachable_good w Hreach))
    as ((He & _) & (Hsf & _) & Hsr & Hsfm).
  unfold Graphviz._get_backend_kwargs. cbn [fst snd].
  set (f := default (Graphviz.format self w) format_).
  set (r := match renderer_ with Some r => Some r | None => Graphviz.renderer self w end).
  set (fm := match formatter_ with Some f => Some f | None => Graphviz.formatter self w end).
  assert (Hf' : f ∈ FORMATS).
  { subst f. destruct format_ as [x|]; [by apply Hf | exact Hsf]. }
  assert (Hr' : absent_or_in r RENDERERS).
  { subst r. intros x Hx. destruct renderer_ as [y|]; [by apply Hr|].
    by apply (Hsr x). }
  assert (Hfm' : absent_or_in fm FORMATTERS).
  { subst fm. intros x Hx. destruct formatter_ as [y|]; [by apply Hfm|].
    by apply (Hsfm x). }
  clearbody f r fm. clear - He Hf' Hr' Hfm'.
  split; [|split].
  - intros Hboth. apply command_succeeds_iff. by repeat split.
  - intros [Hsome ->]. destruct fm as [x|]; [reflexivity | by destruct Hsome].
  - intros msg.
    destruct fm as [x|], r as [y|].
    + rewrite (command_valid _ _ _ _ He Hf' Hr' Hfm') by (intros _ H; discriminate H).
      intros H; discriminate H.
    + intros H. change (Raise (A := list arg)
                          (RequiredArgumentError "formatter given without renderer")
                        = Raise (ValueError msg)) in H.
      discriminate H.
    + rewrite (command_valid _ _ _ _ He Hf' Hr' Hfm') by (intros H; by destruct H).
      intros H; discriminate H.
    + rewrite (command_valid _ _ _ _ He Hf' Hr' Hfm') by (intros H; by destruct H).
      intros H; discriminate H.
Qed.

Lemma object_request_is_known_witness :
  command "dot" "pdf" None (Some "cairo")
  = Raise (RequiredArgumentError "formatter given without renderer").
Proof.
  refine (proj1 (proj2 (object_request_is_known
                          (snd (Graphviz.new None None None (Some "Cairo")
                                  initial_world))
                          0 None None None _ _ _ _)) _).
  - apply rtc_once. constructor.
  - intros x [=].
  - intros x [=].
  - intros x [=].
  - split; [intros H; discriminate H | reflexivity].
Defined.

(** ** Copying *)

(** What the loop of [_copy_kwargs] gives for keyword arguments with none
    of the names of the pairs: it sets each name to the attribute of its
    pair, or leaves it absent when the instance has no such attribute, and
    touches no other key. *)
Lemma copy_attrs_spec (ns : gmap string string) pairs
    (kwargs : gmap string string) :
  NoDup pairs.*2 ->
  (forall k, k ∈ pairs.*2 -> kwargs !! k = None) ->
  exists kw,
    Graphviz.copy_attrs ns pairs kwargs = Some kw
    /\ (forall attr k, (attr, k) ∈ pairs -> kw !! k = ns !! attr)
    /\ (forall k, k ∉ pairs.*2 -> kw !! k = kwargs !! k).
Proof.
  revert kwargs.
  induction pairs as [|[attr k0] rest IH]; intros kwargs Hnd Hfree.
  - exists kwargs. split; [reflexivity|]. split; [|reflexivity].
    intros attr k H. inversion H.
  - cbn [fmap list_fmap snd] in Hnd, Hfree |- *.
    apply NoDup_cons in Hnd as [Hk0 Hnd].
    cbn [Graphviz.copy_attrs].
    rewrite bool_decide_eq_false_2
      by (apply not_elem_of_dom, Hfree, list_elem_of_here).
    set (kwargs' := match ns !! attr with
                    | Some v => <[k0 := v]> kwargs
                    | None => kwargs
                    end).
    assert (Hk0' : kwargs' !! k0 = ns !! attr).
    { unfold kwargs'. destruct (ns !! attr) as [v|].
      - by rewrite lookup_insert_eq.
      - apply Hfree, list_elem_of_here. }
    assert (Hother : forall k, k <> k0 -> kwargs' !! k = kwargs !! k).
    { intros k Hk. unfold kwargs'. destruct (ns !! attr) as [v|]; [|reflexivity].
      by rewrite lookup_insert_ne. }
    destruct (IH kwargs' Hnd) as (kw & Hkw & Hset & Hkeep).
    { intros k Hk. rewrite Hother by (by intros ->).
      by apply Hfree, list_elem_of_further. }
    exists kw. split; [exact Hkw|]. split.
    + intros a k Hin. apply elem_of_cons in Hin as [[= -> ->]|Hin].
      * by rewrite (Hkeep k0 Hk0).
      * by apply Hset.
    + intros k Hk. apply not_elem_of_cons in Hk as [Hne Hk].
      by rewrite (Hkeep k Hk), (Hother k Hne).
Qed.

Lemma attr_kw_names :
  Graphviz.attr_kw.*2 = ["engine"; "format"; "renderer"; "formatter"].
Proof. reflexivity. Qed.

Lemma attr_kw_NoDup : NoDup Graphviz.attr_kw.*2.
Proof.
  rewrite attr_kw_names.
  repeat (apply NoDup_cons; split;
          [intros H; repeat (apply elem_of_cons in H as [H|H];
                             [discriminate H|]); inversion H|]).
  apply NoDup_nil_2.
Qed.

Lemma lower_member_lookup (d : gmap string string) name (S : gset string) :
  good_dict d -> allowed name = Some S ->
  (forall x, x ∈ S -> lowercase x) ->
  lower <$> d !! name = d !! name
  /\ forall x, d !! name = Some x -> lower x ∈ S.
Proof.
  intros Hd Hname Hlow.
  destruct (d !! name) as [x|] eqn:Hx; [|by split].
  assert (Hin : x ∈ S) by (by eapply Hd).
  pose proof (Hlow x Hin) as Hl. unfold lowercase in Hl.
  split; [cbn; by rewrite Hl|]. intros y [= <-]. by rewrite Hl.
Qed.

(** X10: in every reachable state, [_copy_kwargs] called with keyword
    arguments that use none of the names [engine], [format], [renderer]
    and [formatter] hands to the base class exactly these keyword
    arguments and the object's own attributes under the four names: a name
    is absent when the object has no such attribute of its own, and every
    other key is as it was given.  The constructor called with the four
    returns a new object with the same engine, format, renderer and
    formatter. *)
Theorem copy_kwargs_recreate_object {A}
    (super_copy_kwargs : gmap string string -> A) w self
    (kwargs : gmap string string) :
  reachable w ->
  (forall k, k ∈ ["engine"; "format"; "renderer"; "formatter"] ->
             kwargs !! k = None) ->
  exists kw,
    Graphviz._copy_kwargs super_copy_kwargs self kwargs w
    = Some (super_copy_kwargs kw)
    /\ kw !! "engine" = Graphviz.dict_of self w !! "_engine"
    /\ kw !! "format" = Graphviz.dict_of self w !! "_format"
    /\ kw !! "renderer" = Graphviz.dict_of self w !! "_renderer"
    /\ kw !! "formatter" = Graphviz.dict_of self w !! "_formatter"
    /\ (forall k, k ∉ ["engine"; "format"; "renderer"; "formatter"] ->
                  kw !! k = kwargs !! k)
    /\ exists obj w',
         Graphviz.new (kw !! "format") (kw !! "engine")
           (kw !! "renderer") (kw !! "formatter") w = (Ok obj, w')
         /\ objects w !! obj = None
         /\ Graphviz.engine obj w' = Graphviz.engine self w
         /\ Graphviz.format obj w' = Graphviz.format self w
         /\ Graphviz.renderer obj w' = Graphviz.renderer self w
         /\ Graphviz.formatter obj w' = Graphviz.formatter self w.
Proof.
  intros Hreach Hfree. pose proof (reachable_good w Hreach) as Hw.
  pose proof (good_dict_of self w Hw) as Hd.
  destruct (copy_attrs_spec (Graphviz.dict_of self w) Graphviz.attr_kw kwargs
              attr_kw_NoDup Hfree)
    as (kw & Hkw & Hset & Hkeep).
  assert (Ke : kw !! "engine" = Graphviz.dict_of self w !! "_engine").
  { apply Hset, list_elem_of_here. }
  assert (Kf : kw !! "format" = Graphviz.dict_of self w !! "_format").
  { apply Hset, list_elem_of_further, list_elem_of_here. }
  assert (Kr : kw !! "renderer" = Graphviz.dict_of self w !! "_renderer").
  { apply Hset. do 2 apply list_elem_of_further. apply list_elem_of_here. }
  assert (Kfm : kw !! "formatter" = Graphviz.dict_of self w !! "_formatter").
  { apply Hset. do 3 apply list_elem_of_further. apply list_elem_of_here. }
  exists kw. unfold Graphviz._copy_kwargs. rewrite Hkw.
  split; [reflexivity|]. do 4 (split; [assumption|]).
  split; [exact Hkeep|].
  destruct (lower_member_lookup _ "_engine" ENGINES Hd eq_refl ENGINES_lowercase)
    as [Le He].
  destruct (lower_member_lookup _ "_format" FORMATS Hd eq_refl FORMATS_lowercase)
    as [Lf Hf].
  destruct (lower_member_lookup _ "_renderer" RENDERERS Hd eq_refl RENDERERS_lowercase)
    as [Lr Hr].
  destruct (lower_member_lookup _ "_formatter" FORMATTERS Hd eq_refl FORMATTERS_lowercase)
    as [Lfm Hfm].
  rewrite Ke, Kf, Kr, Kfm. eexists _, _.
  split; [by apply new_ok|].
  split; [apply not_elem_of_dom, is_fresh|].
  destruct (init_dict_lookup (Graphviz.dict_of self w !! "_format")
              (Graphviz.dict_of self w !! "_engine")
              (Graphviz.dict_of self w !! "_renderer")
              (Graphviz.dict_of self w !! "_formatter"))
    as (If & Ie & Ir & Ifm).
  unfold Graphviz.format, Graphviz.engine, Graphviz.renderer, Graphviz.formatter.
  rewrite dict_of_set_dict, If, Ie, Ir, Ifm, Le, Lf, Lr, Lfm.
  by repeat split.
Qed.

Lemma copy_kwargs_recreate_object_witness :
  exists kw,
    Graphviz._copy_kwargs id 0 {["comment" := "a graph"]}
      (snd (Graphviz.new (Some "PNG") None (Some "Cairo") None initial_world))
    = Some kw
    /\ kw !! "engine" = None /\ kw !! "format" = Some "png"
    /\ kw !! "comment" = Some "a graph" /\ kw !! "name" = None.
Proof.
  destruct (copy_kwargs_recreate_object id
              (snd (Graphviz.new (Some "PNG") None (Some "Cairo") None
                      initial_world)) 0 {["comment" := "a graph"]})
    as (kw & Hkw & Ke & Kf & _ & _ & Hkeep & _).
  - apply rtc_once. constructor.
  - intros k Hk. apply lookup_singleton_ne. intros <-.
    repeat (apply elem_of_cons in Hk as [Hk|Hk]; [discriminate Hk|]).
    inversion Hk.
  - exists kw. split; [exact Hkw|]. split; [exact Ke|]. split; [exact Kf|].
    split.
    + rewrite Hkeep; [apply lookup_singleton_eq|].
      intros Hk.
      repeat (apply elem_of_cons in Hk as [Hk|Hk]; [discriminate Hk|]).
      inversion Hk.
    + rewrite Hkeep; [apply lookup_singleton_ne; intros H; discriminate H|].
      intros Hk.
      repeat (apply elem_of_cons in Hk as [Hk|Hk]; [discriminate Hk|]).
      inversion Hk.
Defined.

Lemma copy_attrs_asserts ns pairs (kwargs : gmap string string) k :
  k ∈ pairs.*2 -> k ∈ dom kwargs ->
  Graphviz.copy_attrs ns pairs kwargs = None.
Proof.
  revert kwargs. induction pairs as [|[attr kw] rest IH]; intros kwargs Hk Hdom.
  - inversion Hk.
  - cbn [Graphviz.copy_attrs]. case_bool_decide as Hkw; [reflexivity|].
    cbn in Hk. apply elem_of_cons in Hk as [->|Hk]; [by destruct Hkw|].
    apply IH; [exact Hk|].
    destruct (ns !! attr); [|exact Hdom].
    rewrite dom_insert_L. apply elem_of_union. by right.
Qed.

(** X11: [_copy_kwargs] refuses a keyword argument named [engine],
    [format], [renderer] or [formatter]: its assertion fails, whatever the
    object. *)
Theorem copy_kwargs_refuses_own_names {A}
    (super_copy_kwargs : gmap string string -> A) self w
    (kwargs : gmap string string) k :
  k ∈ ["engine"; "format"; "renderer"; "formatter"] ->
  k ∈ dom kwargs ->
  Graphviz._copy_kwargs super_copy_kwargs self kwargs w = None.
Proof.
  intros Hk Hdom. unfold Graphviz._copy_kwargs.
  by rewrite (copy_attrs_asserts _ Graphviz.attr_kw _ k Hk Hdom).
Qed.

Lemma copy_kwargs_refuses_own_names_witness :
  Graphviz._copy_kwargs id 0 {["format" := "png"]} initial_world = None.
Proof.
  refine (copy_kwargs_refuses_own_names id 0 initial_world
            {["format" := "png"]} "format" _ _).
  - apply elem_of_cons. right. apply elem_of_cons. by left.
  - rewrite dom_singleton_L. by apply elem_of_singleton.
Defined.

(** ** Reading a version banner *)

Section MatcherSteps.
Context {R : Type}.
Implicit Types (k : Re.cont (R := R)) (s d : list ascii) (g : Re.captures).

Lemma matches_lit_app cs s g k : Re.matches (Re.Lit cs) (cs ++ s) g k = k s g.
Proof. cbn [Re.matches]. by rewrite strip_prefix_app. Qed.

(** A greedy run that meets the end of the class gives the continuation
    the whole run first. *)
Lemma many_greedy p d s g k x :
  forallb p d = true -> stops p s -> k s g = Some x ->
  Re.many p (d ++ s) g k = Some x.
Proof.
  intros Hd Hs Hk. induction d as [|c d IH].
  - destruct s as [|c s]; [exact Hk|]. cbn in Hs |- *. by rewrite Hs.
  - cbn in Hd |- *. apply andb_true_iff in Hd as [-> Hd]. by rewrite (IH Hd).
Qed.

Lemma matches_group_digits i p d s g k x :
  d <> [] -> forallb p d = true -> stops p s ->
  k s (<[i := d]> g) = Some x ->
  Re.matches (Re.Group i (Re.Plus p)) (d ++ s) g k = Some x.
Proof.
  intros Hne Hd Hs Hk. cbn [Re.matches].
  destruct d as [|c d]; [done|].
  change ((c :: d) ++ s) with (c :: (d ++ s)).
  cbn in Hd. apply andb_true_iff in Hd as [Hc Hd]. rewrite Hc.
  apply many_greedy; [exact Hd | exact Hs|].
  change (c :: d ++ s) with ((c :: d) ++ s).
  by rewrite take_app_length_diff.
Qed.

Lemma matches_rep_app n p d s g k :
  length d = n -> forallb p d = true ->
  Re.matches (Re.Rep n p) (d ++ s) g k = k s g.
Proof. intros <- Hd. cbn [Re.matches]. by rewrite strip_n_app. Qed.

End MatcherSteps.

(** [re.search] passes over characters at which no match can start. *)
Lemma search_skip_prefix r pre s :
  (forall c t, c ∈ pre -> Re.match_here r (c :: t) = None) ->
  Re.search r (pre ++ s) = Re.search r s.
Proof.
  intros Hpre. induction pre as [|c pre IH]; [reflexivity|].
  change ((c :: pre) ++ s) with (c :: (pre ++ s)). cbn [Re.search].
  rewrite (Hpre c (pre ++ s)) by apply list_elem_of_here.
  apply IH. intros c' t Hc'. apply Hpre. by apply list_elem_of_further.
Qed.

Lemma version_pattern_starts_with_g c t :
  c <> "g"%char -> Re.match_here version_pattern (c :: t) = None.
Proof.
  intros Hc. unfold Re.match_here, version_pattern, Re.lit.
  cbn [Re.matches list_ascii_of_string Re.strip_prefix].
  destruct (Ascii.eqb "g" c) eqn:Heq; [|reflexivity].
  apply Ascii.eqb_eq in Heq. by destruct Hc.
Qed.

Section BannerSteps.
Context {R : Type}.
Implicit Types (k : Re.cont (R := R)) (s d : list ascii) (g : Re.captures).

Lemma cat_step r1 r2 s g k x :
  Re.matches r1 s g (fun s' g' => Re.matches r2 s' g' k) = Some x ->
  Re.matches (Re.Cat r1 r2) s g k = Some x.
Proof. intros H. exact H. Qed.

Lemma lit_step cs s g k x :
  k s g = Some x -> Re.matches (Re.Lit cs) (cs ++ s) g k = Some x.
Proof. intros H. by rewrite matches_lit_app. Qed.

Lemma rep_step n p d s g k x :
  length d = n -> forallb p d = true -> k s g = Some x ->
  Re.matches (Re.Rep n p) (d ++ s) g k = Some x.
Proof. intros Hn Hd H. by rewrite matches_rep_app. Qed.

Lemma opt_take r s g k x :
  Re.matches r s g k = Some x -> Re.matches (Re.Opt r) s g k = Some x.
Proof. intros H. cbn [Re.matches]. by rewrite H. Qed.

Lemma opt_skip r s g k x :
  Re.matches r s g k = None -> k s g = Some x ->
  Re.matches (Re.Opt r) s g k = Some x.
Proof. intros Hr H. cbn [Re.matches]. by rewrite Hr. Qed.

Lemma alt_left r1 r2 s g k x :
  Re.matches r1 s g k = Some x -> Re.matches (Re.Alt r1 r2) s g k = Some x.
Proof. intros H. cbn [Re.matches]. by rewrite H. Qed.

Lemma alt_right r1 r2 s g k x :
  Re.matches r1 s g k = None -> Re.matches r2 s g k = Some x ->
  Re.matches (Re.Alt r1 r2) s g k = Some x.
Proof. intros Hr H. cbn [Re.matches]. by rewrite Hr. Qed.

End BannerSteps.

Lemma search_here r s g :
  Re.match_here r s = Some g -> Re.search r s = Some g.
Proof. intros H. destruct s; cbn [Re.search]; by rewrite H. Qed.

(** The start of every match: the words [graphviz version], a space, the
    major number, a dot and the minor number. *)
Lemma match_major_minor major minor s (k : Re.cont (R := Re.captures)) r x :
  digit_run major -> digit_run minor -> stops is_digit s ->
  Re.matches r s (<[2 := minor]> (<[1 := major]> ∅)) k = Some x ->
  Re.matches
    (Re.lit "graphviz version" ⋅ Re.lit " "
     ⋅ Re.Group 1 (Re.Plus is_digit) ⋅ Re.lit "." ⋅ Re.Group 2 (Re.Plus is_digit)
     ⋅ r)%re
    (list_ascii_of_string "graphviz version " ++ major ++ "."%char :: minor ++ s)
    ∅ k = Some x.
Proof.
  intros [Hne1 Hd1] [Hne2 Hd2] Hs Hr.
  change (list_ascii_of_string "graphviz version " ++ major ++ "."%char :: minor ++ s)
    with (list_ascii_of_string "graphviz version"
          ++ list_ascii_of_string " "
          ++ major ++ list_ascii_of_string "." ++ minor ++ s).
  apply cat_step, lit_step. apply cat_step, lit_step.
  apply cat_step, matches_group_digits; [exact Hne1 | exact Hd1 | reflexivity|].
  apply cat_step, lit_step.
  apply cat_step, matches_group_digits; [exact Hne2 | exact Hd2 | exact Hs|].
  exact Hr.
Qed.

Lemma match_here_two major minor rest :
  digit_run major -> digit_run minor ->
  Re.match_here version_pattern
    (list_ascii_of_string "graphviz version " ++ major ++ "."%char :: minor
     ++ " "%char :: rest)
  = Some (<[2 := minor]> (<[1 := major]> ∅)).
Proof.
  intros H1 H2. unfold Re.match_here, version_pattern.
  apply match_major_minor; [exact H1 | exact H2 | reflexivity|].
  apply cat_step, opt_skip; [reflexivity|].
  change (" "%char :: rest) with (list_ascii_of_string " " ++ rest).
  by apply lit_step.
Qed.

Lemma match_here_three major minor patch rest :
  digit_run major -> digit_run minor -> digit_run patch ->
  Re.match_here version_pattern
    (list_ascii_of_string "graphviz version " ++ major ++ "."%char :: minor
     ++ "."%char :: patch ++ " "%char :: rest)
  = Some (<[3 := patch]> (<[2 := minor]> (<[1 := major]> ∅))).
Proof.
  intros H1 H2 [Hne3 Hd3]. unfold Re.match_here, version_pattern.
  apply match_major_minor; [exact H1 | exact H2 | reflexivity|].
  apply cat_step, opt_take.
  change ("."%char :: patch ++ " "%char :: rest)
    with (list_ascii_of_string "." ++ patch ++ " "%char :: rest).
  apply cat_step, lit_step.
  apply cat_step, matches_group_digits; [exact Hne3 | exact Hd3 | reflexivity|].
  apply opt_skip; [reflexivity|].
  change (" "%char :: rest) with (list_ascii_of_string " " ++ rest).
  by apply lit_step.
Qed.

Lemma match_here_four major minor patch sub rest :
  digit_run major -> digit_run minor -> digit_run patch -> digit_run sub ->
  Re.match_here version_pattern
    (list_ascii_of_string "graphviz version " ++ major ++ "."%char :: minor
     ++ "."%char :: patch ++ "."%char :: sub ++ " "%char :: rest)
  = Some (<[4 := sub]> (<[3 := patch]> (<[2 := minor]> (<[1 := major]> ∅)))).
Proof.
  intros H1 H2 [Hne3 Hd3] [Hne4 Hd4]. unfold Re.match_here, version_pattern.
  apply match_major_minor; [exact H1 | exact H2 | reflexivity|].
  apply cat_step, opt_take.
  change ("."%char :: patch ++ "."%char :: sub ++ " "%char :: rest)
    with (list_ascii_of_string "." ++ patch
          ++ list_ascii_of_string "." ++ sub ++ " "%char :: rest).
  apply cat_step, lit_step.
  apply cat_step, matches_group_digits; [exact Hne3 | exact Hd3 | reflexivity|].
  apply opt_take, alt_right; [reflexivity|].
  apply cat_step, lit_step.
  apply matches_group_digits; [exact Hne4 | exact Hd4 | reflexivity|].
  change (" "%char :: rest) with (list_ascii_of_string " " ++ rest).
  by apply lit_step.
Qed.

Lemma match_here_dev major minor patch date time rest :
  digit_run major -> digit_run minor -> digit_run patch ->
  length date = 8 -> forallb is_digit date = true ->
  length time = 4 -> forallb is_digit time = true ->
  Re.match_here version_pattern
    (list_ascii_of_string "graphviz version " ++ major ++ "."%char :: minor
     ++ "."%char :: patch ++ list_ascii_of_string "~dev." ++ date
     ++ "."%char :: time ++ " "%char :: rest)
  = Some (<[3 := patch]> (<[2 := minor]> (<[1 := major]> ∅))).
Proof.
  intros H1 H2 [Hne3 Hd3] Hl8 Hd8 Hl4 Hd4.
  unfold Re.match_here, version_pattern.
  apply match_major_minor; [exact H1 | exact H2 | reflexivity|].
  apply cat_step, opt_take.
  change ("."%char :: patch ++ list_ascii_of_string "~dev." ++ date
          ++ "."%char :: time ++ " "%char :: rest)
    with (list_ascii_of_string "." ++ patch ++ list_ascii_of_string "~dev."
          ++ date ++ list_ascii_of_string "." ++ time ++ " "%char :: rest).
  apply cat_step, lit_step.
  apply cat_step, matches_group_digits; [exact Hne3 | exact Hd3 | reflexivity|].
  apply opt_take, alt_left.
  apply cat_step, lit_step.
  apply cat_step, rep_step; [exact Hl8 | exact Hd8|].
  apply cat_step, lit_step.
  apply rep_step; [exact Hl4 | exact Hd4|].
  change (" "%char :: rest) with (list_ascii_of_string " " ++ rest).
  by apply lit_step.
Qed.

(** From a match at the end of a prefix without the letter g to the result
    of [version]. *)
Lemma version_of_match
    (run_check : list arg -> run_kwargs -> M CompletedProcess)
    w proc w' pre text ma :
  run_check [DOT_BINARY; StrArg "-V"] version_kwargs w = (Ok proc, w') ->
  list_ascii_of_string (stdout proc) = pre ++ text ->
  "g"%char ∉ pre ->
  Re.match_here version_pattern text = Some ma ->
  version run_check w
  = (tuple_of int (not_none [ma !! 1; ma !! 2; ma !! 3; ma !! 4]), w').
Proof.
  intros Hrun Htext Hpre Hma. rewrite version_unfold, Hrun.
  unfold banner_result. rewrite Htext.
  rewrite search_skip_prefix.
  - by rewrite (search_here _ _ _ Hma).
  - intros c t Hc. apply version_pattern_starts_with_g. by intros ->.
Qed.

(** X12: [version] reads a banner of any of the four forms, whatever the
    numbers, as long as none has more digits than [int] converts: after a
    prefix without the letter g, [graphviz version M.m], [M.m.p], [M.m.p.s]
    or [M.m.p~dev.YYYYMMDD.HHMM], followed by a space and anything, gives
    (M, m), (M, m, p), (M, m, p, s) and (M, m, p); the date and time of a
    development build are left out. *)
Theorem version_reads_numbers
    (run_check : list arg -> run_kwargs -> M CompletedProcess)
    w proc w' pre major minor patch sub date time rest :
  run_check [DOT_BINARY; StrArg "-V"] version_kwargs w = (Ok proc, w') ->
  "g"%char ∉ pre ->
  digit_run major -> within_limit major ->
  digit_run minor -> within_limit minor ->
  (list_ascii_of_string (stdout proc)
   = pre ++ list_ascii_of_string "graphviz version " ++ major
     ++ "."%char :: minor ++ " "%char :: rest ->
   version run_check w = (Ok [int_digits major; int_digits minor], w'))
  /\ (digit_run patch -> within_limit patch ->
      list_ascii_of_string (stdout proc)
      = pre ++ list_ascii_of_string "graphviz version " ++ major
        ++ "."%char :: minor ++ "."%char :: patch ++ " "%char :: rest ->
      version run_check w
      = (Ok [int_digits major; int_digits minor; int_digits patch], w'))
  /\ (digit_run patch -> within_limit patch ->
      digit_run sub -> within_limit sub ->
      list_ascii_of_string (stdout proc)
      = pre ++ list_ascii_of_string "graphviz version " ++ major
        ++ "."%char :: minor ++ "."%char :: patch ++ "."%char :: sub
        ++ " "%char :: rest ->
      version run_check w
      = (Ok [int_digits major; int_digits minor; int_digits patch;
             int_digits sub], w'))
  /\ (digit_run patch -> within_limit patch ->
      length date = 8 -> forallb is_digit date = true ->
      length time = 4 -> forallb is_digit time = true ->
      list_ascii_of_string (stdout proc)
      = pre ++ list_ascii_of_string "graphviz version " ++ major
        ++ "."%char :: minor ++ "."%char :: patch
        ++ list_ascii_of_string "~dev." ++ date ++ "."%char :: time
        ++ " "%char :: rest ->
      version run_check w
      = (Ok [int_digits major; int_digits minor; int_digits patch], w')).
Proof.
  intros Hrun Hpre H1 L1 H2 L2.
  split; [|split; [|split]].
  - intros Htext.
    rewrite (version_of_match _ _ _ _ _ _ _ Hrun Htext Hpre
               (match_here_two _ _ _ H1 H2)).
    f_equal. refine (tuple_of_int_within [major; minor] _).
    by repeat constructor.
  - intros H3 L3 Htext.
    rewrite (version_of_match _ _ _ _ _ _ _ Hrun Htext Hpre
               (match_here_three _ _ _ _ H1 H2 H3)).
    f_equal. refine (tuple_of_int_within [major; minor; patch] _).
    by repeat constructor.
  - intros H3 L3 H4 L4 Htext.
    rewrite (version_of_match _ _ _ _ _ _ _ Hrun Htext Hpre
               (match_here_four _ _ _ _ _ H1 H2 H3 H4)).
    f_equal. refine (tuple_of_int_within [major; minor; patch; sub] _).
    by repeat constructor.
  - intros H3 L3 Hl8 Hd8 Hl4 Hd4 Htext.
    rewrite (version_of_match _ _ _ _ _ _ _ Hrun Htext Hpre
               (match_here_dev _ _ _ _ _ _ H1 H2 H3 Hl8 Hd8 Hl4 Hd4)).
    f_equal. refine (tuple_of_int_within [major; minor; patch] _).
    by repeat constructor.
Qed.

Lemma version_reads_numbers_witness :
  version
    (Running.run_check
       (os_prints "dot - graphviz version 2.43.20190912.0211 (20190912.0211)"))
    initial_world
  = (Ok [2; 43; 20190912; 211]%Z,
     log_call ([DOT_BINARY; StrArg "-V"], version_kwargs) initial_world).
Proof.
  refine (proj1 (proj2 (proj2
            (version_reads_numbers
               (Running.run_check
                  (os_prints
                     "dot - graphviz version 2.43.20190912.0211 (20190912.0211)"))
               initial_world
               {| args := [DOT_BINARY; StrArg "-V"]; returncode := 0;
                  stdout := "dot - graphviz version 2.43.20190912.0211 (20190912.0211)";
                  stderr := EmptyString |}
               _
               (list_ascii_of_string "dot - ")
               (list_ascii_of_string "2") (list_ascii_of_string "43")
               (list_ascii_of_string "20190912") (list_ascii_of_string "0211")
               [] []
               (list_ascii_of_string "(20190912.0211)")
               _ _ _ _ _ _))) _ _ _ _ _).
  - reflexivity.
  - vm_compute. intros H. repeat (apply elem_of_cons in H as [H|H]; [discriminate H|]).
    inversion H.
  - split; [intros H; discriminate H | reflexivity].
  - vm_compute. intros H. discriminate H.
  - split; [intros H; discriminate H | reflexivity].
  - vm_compute. intros H. discriminate H.
  - split; [intros H; discriminate H | reflexivity].
  - vm_compute. intros H. discriminate H.
  - split; [intros H; discriminate H | reflexivity].
  - vm_compute. intros H. discriminate H.
  - reflexivity.
Defined.

(** X13: [version] raises in three cases only: the error of its call of
    the runner, unchanged; [RuntimeError] when the runner returned a text
    with no substring that matches the pattern; and the [ValueError] of
    [int] for the first captured number that has more digits than the
    limit.  It makes one call and catches nothing. *)
Theorem version_raises_exactly
    (run_check : list arg -> run_kwargs -> M CompletedProcess) w e w' :
  version run_check w = (Raise e, w') <->
  run_check [DOT_BINARY; StrArg "-V"] version_kwargs w = (Raise e, w')
  \/ (exists proc,
        run_check [DOT_BINARY; StrArg "-V"] version_kwargs w = (Ok proc, w')
        /\ ~ Re.has_match version_pattern (list_ascii_of_string (stdout proc))
        /\ e = RuntimeError ("cannot parse [PosixPath('dot'), '-V'] output: "
                             +:+ repr (stdout proc)))
  \/ (exists proc ma d,
        run_check [DOT_BINARY; StrArg "-V"] version_kwargs w = (Ok proc, w')
        /\ Re.search version_pattern (list_ascii_of_string (stdout proc))
           = Some ma
        /\ first_over_limit (not_none (Re.groups version_pattern ma)) = Some d
        /\ digit_run d /\ ~ within_limit d
        /\ e = ValueError (limit_message d)).
Proof.
  rewrite version_unfold.
  destruct (run_check [DOT_BINARY; StrArg "-V"] version_kwargs w)
    as [[proc|e0] w0].
  - unfold banner_result.
    destruct (Re.search version_pattern (list_ascii_of_string (stdout proc)))
      as [ma|] eqn:Hs.
    + pose proof (tuple_of_int (not_none (Re.groups version_pattern ma))) as Hds.
      destruct (first_over_limit (not_none (Re.groups version_pattern ma)))
        as [d|] eqn:Hfirst; rewrite Hds.
      * split.
        -- intros [= <- <-]. right. right. exists proc, ma, d.
           split; [reflexivity|]. split; [exact Hs|]. split; [exact Hfirst|].
           destruct (first_over_limit_spec _ _ Hfirst) as [Hin Hover].
           split; [|by split].
           destruct (search_sound _ _ _ version_pattern_groups Hs)
             as (_ & Hdigits & _).
           exact (not_none_elem_of _ _ _ Hin Hdigits).
        -- intros [H|[(proc' & H & Hno & _)|(proc' & ma' & d' & H & Hs' & Hf' & _ & _ & ->)]].
           ++ discriminate H.
           ++ injection H as <- <-.
              apply (search_None_iff _ _ version_pattern_groups) in Hno.
              rewrite Hno in Hs. discriminate Hs.
           ++ injection H as <- <-. rewrite Hs in Hs'. injection Hs' as <-.
              rewrite Hfirst in Hf'. by injection Hf' as <-.
      * split; [intros H; discriminate H|].
        intros [H|[(proc' & H & Hno & _)|(proc' & ma' & d' & H & Hs' & Hf' & _)]].
        -- discriminate H.
        -- injection H as <- <-.
           apply (search_None_iff _ _ version_pattern_groups) in Hno.
           rewrite Hno in Hs. discriminate Hs.
        -- injection H as <- <-. rewrite Hs in Hs'. injection Hs' as <-.
           rewrite Hfirst in Hf'. discriminate Hf'.
    + split.
      * intros [= <- <-]. right. left. exists proc. split; [reflexivity|].
        split; [|reflexivity].
        by apply (search_None_iff _ _ version_pattern_groups).
      * intros [H|[(proc' & [= <- <-] & _ & ->)|(proc' & ma' & d' & [= <- <-] & Hs' & _)]];
          [discriminate H | reflexivity|].
        rewrite Hs in Hs'. discriminate Hs'.
  - split.
    + intros [= <- <-]. by left.
    + intros [[= <- <-]|[(proc & H & _)|(proc & ma & d & H & _)]];
        [reflexivity | discriminate H | discriminate H].
Qed.

(** ** The words of the version pattern *)

Lemma lang_cat_inv r1 r2 w :
  Re.lang (Re.Cat r1 r2) w ->
  exists w1 w2, w = w1 ++ w2 /\ Re.lang r1 w1 /\ Re.lang r2 w2.
Proof. intros H. inversion H; subst. by eexists _, _. Qed.

Lemma lang_lit_inv cs w : Re.lang (Re.Lit cs) w -> w = cs.
Proof. intros H. by inversion H. Qed.

Lemma lang_group_digits_inv i w :
  Re.lang (Re.Group i (Re.Plus is_digit)) w -> digit_run w.
Proof. intros H. inversion H; subst. by apply plus_digit_run. Qed.

Lemma lang_rep_inv n p w :
  Re.lang (Re.Rep n p) w -> length w = n /\ forallb p w = true.
Proof. intros H. by inversion H. Qed.

Lemma lang_opt_inv r w : Re.lang (Re.Opt r) w -> w = [] \/ Re.lang r w.
Proof. intros H. inversion H; subst; [by right | by left]. Qed.

Lemma lang_alt_inv r1 r2 w :
  Re.lang (Re.Alt r1 r2) w -> Re.lang r1 w \/ Re.lang r2 w.
Proof. intros H. inversion H; subst; [by left | by right]. Qed.

Lemma lang_group_digits i w :
  digit_run w -> Re.lang (Re.Group i (Re.Plus is_digit)) w.
Proof. intros [Hne Hd]. by apply Re.lang_Group, Re.lang_Plus. Qed.

(** The pattern matches the version banners and nothing else. *)
Lemma version_pattern_words w : Re.lang version_pattern w <-> banner_word w.
Proof.
  unfold version_pattern, Re.lit, banner_word. split.
  - intros H.
    apply lang_cat_inv in H as (a & w1 & -> & Ha & H). apply lang_lit_inv in Ha as ->.
    apply lang_cat_inv in H as (a & w2 & -> & Ha & H). apply lang_lit_inv in Ha as ->.
    apply lang_cat_inv in H as (major & w3 & -> & Hmajor & H).
    apply lang_group_digits_inv in Hmajor.
    apply lang_cat_inv in H as (a & w4 & -> & Ha & H). apply lang_lit_inv in Ha as ->.
    apply lang_cat_inv in H as (minor & w5 & -> & Hminor & H).
    apply lang_group_digits_inv in Hminor.
    apply lang_cat_inv in H as (tl & sp & -> & Htl & Hsp).
    apply lang_lit_inv in Hsp as ->.
    exists major, minor, tl. split; [exact Hmajor|]. split; [exact Hminor|].
    split; [|reflexivity].
    apply lang_opt_inv in Htl as [->|Htl]; [constructor|].
    apply lang_cat_inv in Htl as (a & w6 & -> & Ha & H). apply lang_lit_inv in Ha as ->.
    apply lang_cat_inv in H as (patch & w7 & -> & Hpatch & H).
    apply lang_group_digits_inv in Hpatch.
    apply lang_opt_inv in H as [->|H].
    { rewrite app_nil_r. by apply tail_patch. }
    apply lang_alt_inv in H as [H|H].
    + apply lang_cat_inv in H as (a & w8 & -> & Ha & H). apply lang_lit_inv in Ha as ->.
      apply lang_cat_inv in H as (date & w9 & -> & Hdate & H).
      apply lang_rep_inv in Hdate as [Hl8 Hd8].
      apply lang_cat_inv in H as (a & time & -> & Ha & Htime).
      apply lang_lit_inv in Ha as ->.
      apply lang_rep_inv in Htime as [Hl4 Hd4].
      by apply (tail_dev patch date time).
    + apply lang_cat_inv in H as (a & sub & -> & Ha & Hsub).
      apply lang_lit_inv in Ha as ->.
      apply lang_group_digits_inv in Hsub.
      by apply (tail_sub patch sub).
  - intros (major & minor & tl & Hmajor & Hminor & Htl & ->).
    change (list_ascii_of_string "graphviz version " ++ major
            ++ "."%char :: minor ++ tl ++ [" "%char])
      with (list_ascii_of_string "graphviz version"
            ++ list_ascii_of_string " " ++ major
            ++ list_ascii_of_string "." ++ minor ++ tl
            ++ list_ascii_of_string " ").
    apply Re.lang_Cat; [constructor|]. apply Re.lang_Cat; [constructor|].
    apply Re.lang_Cat; [by apply lang_group_digits|].
    apply Re.lang_Cat; [constructor|].
    apply Re.lang_Cat; [by apply lang_group_digits|].
    apply Re.lang_Cat; [|constructor].
    destruct Htl as [|p Hp|p s Hp Hs|p d t Hp Hl8 Hd8 Hl4 Hd4].
    + apply Re.lang_Opt_none.
    + apply Re.lang_Opt_some.
      change ("."%char :: p) with (list_ascii_of_string "." ++ p).
      apply Re.lang_Cat; [constructor|].
      rewrite <- (app_nil_r p).
      apply Re.lang_Cat; [by apply lang_group_digits | apply Re.lang_Opt_none].
    + apply Re.lang_Opt_some.
      change ("."%char :: p ++ "."%char :: s)
        with (list_ascii_of_string "." ++ p ++ list_ascii_of_string "." ++ s).
      apply Re.lang_Cat; [constructor|].
      apply Re.lang_Cat; [by apply lang_group_digits|].
      apply Re.lang_Opt_some, Re.lang_Alt_r.
      apply Re.lang_Cat; [constructor | by apply lang_group_digits].
    + apply Re.lang_Opt_some.
      change ("."%char :: p ++ list_ascii_of_string "~dev." ++ d ++ "."%char :: t)
        with (list_ascii_of_string "." ++ p ++ list_ascii_of_string "~dev."
              ++ d ++ list_ascii_of_string "." ++ t).
      apply Re.lang_Cat; [constructor|].
      apply Re.lang_Cat; [by apply lang_group_digits|].
      apply Re.lang_Opt_some, Re.lang_Alt_l.
      apply Re.lang_Cat; [constructor|].
      apply Re.lang_Cat; [by constructor|].
      apply Re.lang_Cat; [constructor | by constructor].
Qed.

(** X14: once the runner has returned, [version] gives the parse error
    exactly when the text has nowhere in it [graphviz version MAJOR.MINOR],
    optionally [.PATCH] and then optionally [.SUBPATCH] or [~dev.] with
    eight digits, a dot and four digits, followed by a space.  It returns
    a tuple only when the text has such a banner, and for a text of at
    most 4300 characters, in which no number is too long for [int],
    exactly when it has one. *)
Theorem version_succeeds_iff_banner
    (run_check : list arg -> run_kwargs -> M CompletedProcess) w proc w' :
  run_check [DOT_BINARY; StrArg "-V"] version_kwargs w = (Ok proc, w') ->
  (version run_check w
   = (Raise (RuntimeError ("cannot parse [PosixPath('dot'), '-V'] output: "
                           +:+ repr (stdout proc))), w') <->
   ~ exists pre word post,
       list_ascii_of_string (stdout proc) = pre ++ word ++ post
       /\ banner_word word)
  /\ ((exists t, version run_check w = (Ok t, w')) ->
      exists pre word post,
        list_ascii_of_string (stdout proc) = pre ++ word ++ post
        /\ banner_word word)
  /\ (String.length (stdout proc) <= 4300 ->
      ((exists t, version run_check w = (Ok t, w')) <->
       exists pre word post,
         list_ascii_of_string (stdout proc) = pre ++ word ++ post
         /\ banner_word word)).
Proof.
  intros Hrun. rewrite version_unfold, Hrun. unfold banner_result.
  assert (Hiff : Re.has_match version_pattern (list_ascii_of_string (stdout proc))
                 <-> exists pre word post,
                       list_ascii_of_string (stdout proc) = pre ++ word ++ post
                       /\ banner_word word).
  { unfold Re.has_match. split.
    - intros (pre & word & post & Heq & Hw). exists pre, word, post.
      split; [exact Heq | by apply version_pattern_words].
    - intros (pre & word & post & Heq & Hw). exists pre, word, post.
      split; [exact Heq | by apply version_pattern_words]. }
  rewrite <- Hiff. clear Hiff.
  destruct (Re.search version_pattern (list_ascii_of_string (stdout proc)))
    as [ma|] eqn:Hs.
  - assert (Hm : Re.has_match version_pattern
                   (list_ascii_of_string (stdout proc)))
      by (by apply (search_sound _ _ _ version_pattern_groups Hs)).
    pose proof (tuple_of_int (not_none (Re.groups version_pattern ma))) as Hds.
    split; [|split].
    + split.
      * destruct (first_over_limit (not_none (Re.groups version_pattern ma)));
          rewrite Hds; intros H; discriminate H.
      * intros Hno. by destruct Hno.
    + intros _. exact Hm.
    + intros Hlen. split; [intros _; exact Hm|]. intros _.
      rewrite (tuple_of_int_within _ (short_text_within _ _ _ Hlen Hs)).
      by eexists.
  - assert (Hno : ~ Re.has_match version_pattern
                      (list_ascii_of_string (stdout proc)))
      by (by apply (search_None_iff _ _ version_pattern_groups)).
    split; [|split].
    + split; [intros _; exact Hno | intros _; reflexivity].
    + intros [t H]. discriminate H.
    + intros _. split; [intros [t H]; discriminate H|].
      intros Hm. by destruct Hno.
Qed.

Lemma version_succeeds_iff_banner_witness :
  exists t,
    version
      (Running.run_check (os_prints "dot - graphviz version 2.44.1 (mocked)"))
      initial_world
    = (Ok t,
       log_call ([DOT_BINARY; StrArg "-V"], version_kwargs) initial_world).
Proof.
  refine (proj2 (proj2 (proj2 (version_succeeds_iff_banner
                                 (Running.run_check
                                    (os_prints
                                       "dot - graphviz version 2.44.1 (mocked)"))
                                 initial_world
                                 {| args := [DOT_BINARY; StrArg "-V"];
                                    returncode := 0;
                                    stdout :=
                                      "dot - graphviz version 2.44.1 (mocked)";
                                    stderr := EmptyString |}
                                 _ _)) _) _).
  - reflexivity.
  - change (38 <= 4300). lia.
  - exists (list_ascii_of_string "dot - "),
      (list_ascii_of_string "graphviz version 2.44.1 "),
      (list_ascii_of_string "(mocked)").
    split; [reflexivity|].
    exists (list_ascii_of_string "2"), (list_ascii_of_string "44"),
      ("."%char :: list_ascii_of_string "1").
    split; [split; [intros H; discriminate H | reflexivity]|].
    split; [split; [intros H; discriminate H | reflexivity]|].
    split; [|reflexivity].
    apply tail_patch. split; [intros H; discriminate H | reflexivity].
Defined.

(** ** An engine or format of the object's own *)

Lemma set_default_keeps_dicts v w o :
  Graphviz.dict_of o (snd (set_default_engine v w)) = Graphviz.dict_of o w
  /\ Graphviz.dict_of o (snd (set_default_format v w)) = Graphviz.dict_of o w.
Proof.
  unfold set_default_engine, set_default_format, lift, raise_if, mbind, M_bind,
    get_cls_engine, put_cls_engine, get_cls_format, put_cls_format, mret, M_ret.
  split.
  - by destruct (is_in v ENGINES).
  - by destruct (is_in v FORMATS).
Qed.

(** X15: in every reachable state, assigning to an object the engine that
    it shows is accepted and changes none of its properties, but gives the
    object an engine of its own: no later change of the default engine
    shows on it.  The same holds of the format. *)
Theorem assigning_shown_value_pins_it w self :
  reachable w ->
  (exists w',
     Graphviz.engine_setter self (Graphviz.engine self w) w = (Ok tt, w')
     /\ same_properties self w w'
     /\ forall v, Graphviz.engine self (snd (set_default_engine v w'))
                  = Graphviz.engine self w)
  /\ (exists w',
        Graphviz.format_setter self (Graphviz.format self w) w = (Ok tt, w')
        /\ same_properties self w w'
        /\ forall v, Graphviz.format self (snd (set_default_format v w'))
                     = Graphviz.format self w).
Proof.
  intros Hreach.
  destruct (good_well_configured self w (reachable_good w Hreach))
    as ((He & Hle) & (Hf & Hlf) & _).
  unfold lowercase in Hle, Hlf. split.
  - set (e := Graphviz.engine self w) in *.
    exists (Graphviz.set_dict self
              (<["_engine" := e]> (Graphviz.dict_of self w)) w).
    split.
    + unfold Graphviz.engine_setter. rewrite Hle.
      by apply validated_setattr_ok.
    + split.
      * unfold same_properties, Graphviz.format, Graphviz.renderer,
          Graphviz.formatter.
        split; [unfold Graphviz.engine;
                by rewrite dict_of_set_dict, lookup_insert_eq|].
        rewrite dict_of_set_dict.
        rewrite !lookup_insert_ne by (intros H; discriminate H).
        by repeat split.
      * intros v.
        pose proof (proj1 (set_default_keeps_dicts v
                             (Graphviz.set_dict self
                                (<["_engine" := e]> (Graphviz.dict_of self w)) w)
                             self)) as Hkeep.
        unfold Graphviz.engine. rewrite Hkeep.
        by rewrite dict_of_set_dict, lookup_insert_eq.
  - set (f := Graphviz.format self w) in *.
    exists (Graphviz.set_dict self
              (<["_format" := f]> (Graphviz.dict_of self w)) w).
    split.
    + unfold Graphviz.format_setter. rewrite Hlf.
      by apply validated_setattr_ok.
    + split.
      * unfold same_properties, Graphviz.engine, Graphviz.renderer,
          Graphviz.formatter.
        split; [|split; [unfold Graphviz.format;
                         by rewrite dict_of_set_dict, lookup_insert_eq|]].
        -- rewrite dict_of_set_dict.
           by rewrite lookup_insert_ne by (intros H; discriminate H).
        -- rewrite dict_of_set_dict.
           rewrite !lookup_insert_ne by (intros H; discriminate H).
           by split.
      * intros v.
        pose proof (proj2 (set_default_keeps_dicts v
                             (Graphviz.set_dict self
                                (<["_format" := f]> (Graphviz.dict_of self w)) w)
                             self)) as Hkeep.
        unfold Graphviz.format. rewrite Hkeep.
        by rewrite dict_of_set_dict, lookup_insert_eq.
Qed.

Lemma assigning_shown_value_pins_it_witness :
  exists w',
    Graphviz.engine_setter 0 "dot" initial_world = (Ok tt, w')
    /\ forall v, Graphviz.engine 0 (snd (set_default_engine v w')) = "dot".
Proof.
  destruct (proj1 (assigning_shown_value_pins_it initial_world 0
                     (rtc_refl _ _)))
    as (w' & Hset & _ & Hpin).
  exists w'. split; [exact Hset | exact Hpin].
Defined.
